(** * Website scraper: extraction rules of [app.py]

    A shallow embedding of [clean_text], [extract_code_language] and
    [scrape_website], and the properties of the extraction result.

    Conventions of the model.
    - Python [str] values are [string]s; a character is read as the code
      point of the same number (U+0000 .. U+00FF).
    - A parsed document is the tree BeautifulSoup builds: [Tag] nodes carry
      their name, their [class] attribute as the list of its tokens, their
      other attributes, and their children; [NavigableString] nodes carry
      text.
    - The identity of an element ([id(element)]) is its position in the
      document-order enumeration of the elements of the tree.
    - The network is the environment: [scrape_website] takes the outcome of
      [requests.get] as an argument. *)

From Stdlib Require Import ZArith Ascii String DecimalString DecimalNat Lia.
From stdpp Require Import base option list strings gmap sets.

Local Open Scope Z_scope.
Local Set Warnings "-register-all".

(* ===================================================================== *)
(** ** Text primitives *)
(* ===================================================================== *)

Module Text.

(** [str.isspace] on one character, which is also the class [\s] of [re]
    for [str] patterns: TAB..CR, FS..US, SPACE, NEL, NBSP. *)
Definition isspace (c : ascii) : bool :=
  let n := Z.of_N (N_of_ascii c) in
  ((9 <=? n) && (n <=? 13)) || ((28 <=? n) && (n <=? 32))
  || (n =? 133) || (n =? 160).

(** [s.lstrip()] *)
Fixpoint lstrip (s : string) : string :=
  match s with
  | EmptyString => EmptyString
  | String c s' => if isspace c then lstrip s' else s
  end.

(** [s.rstrip()]: a character is kept when it is not white space or when
    something is kept to its right. *)
Fixpoint rstrip (s : string) : string :=
  match s with
  | EmptyString => EmptyString
  | String c s' =>
      match rstrip s' with
      | EmptyString => if isspace c then EmptyString else String c EmptyString
      | r => String c r
      end
  end.

(** [s.strip()] *)
Definition strip (s : string) : string := lstrip (rstrip s).

(** [re.sub(r'\s+', ' ', s)]: every maximal run of white space becomes one
    space.  [in_run] tells that the previous character was white space, so
    that the run's replacement has been written already. *)
Fixpoint sub_ws (in_run : bool) (s : string) : string :=
  match s with
  | EmptyString => EmptyString
  | String c s' =>
      if isspace c
      then (if in_run then sub_ws true s' else String " " (sub_ws true s'))
      else String c (sub_ws false s')
  end.

Definition re_sub_ws (s : string) : string := sub_ws false s.

(** Truth value of a [str]: non-empty. *)
Definition truthy (s : string) : bool :=
  match s with EmptyString => false | String _ _ => true end.

(** [s.startswith(p)] *)
Fixpoint startswith (p s : string) : bool :=
  match p, s with
  | EmptyString, _ => true
  | String a p', String b s' => if Ascii.eqb a b then startswith p' s' else false
  | String _ _, EmptyString => false
  end.

(** [s.startswith((p1, p2, ...))] *)
Definition startswith_any (ps : list string) (s : string) : bool :=
  existsb (fun p => startswith p s) ps.

(** [s.split(sep, 1)] for a one-character separator: the whole string when
    the separator does not occur, else the parts before and after its
    first occurrence. *)
Fixpoint split1 (sep : ascii) (s : string) : list string :=
  match s with
  | EmptyString => [EmptyString]
  | String c s' =>
      if Ascii.eqb c sep then [EmptyString; s']
      else match split1 sep s' with
           | h :: t => String c h :: t
           | [] => []
           end
  end.

(** [sub in s] *)
Fixpoint contains (sub s : string) : bool :=
  startswith sub s ||
  match s with
  | EmptyString => false
  | String _ s' => contains sub s'
  end.

(** [' '.join(l)] *)
Fixpoint join_sp (l : list string) : string :=
  match l with
  | [] => EmptyString
  | [x] => x
  | x :: rest => x +:+ " " +:+ join_sp rest
  end.

(** All characters of [s] are white space. *)
Fixpoint all_space (s : string) : bool :=
  match s with
  | EmptyString => true
  | String c s' => isspace c && all_space s'
  end.

(** [c] occurs in [s]. *)
Fixpoint occurs (c : ascii) (s : string) : bool :=
  match s with
  | EmptyString => false
  | String d s' => Ascii.eqb d c || occurs c s'
  end.

End Text.

(** [clean_text]: the empty text is returned at once; otherwise the text
    is stripped and then its white-space runs are replaced. *)
Definition clean_text (text : string) : string :=
  if negb (Text.truthy text) then ""
  else Text.re_sub_ws (Text.strip text).

(** The normalisation as the specification words it: collapse the runs of
    white space, then trim. *)
Definition normalize_spec (text : string) : string :=
  Text.strip (Text.re_sub_ws text).

(* ===================================================================== *)
(** ** The parsed document *)
(* ===================================================================== *)

(** A node of the tree: a string, or a tag with its name, the tokens of
    its [class] attribute (none when the attribute is missing), its other
    attributes and its children. *)
Inductive node : Type :=
  | NavigableString (text : string)
  | Tag (name : string) (classes : list string)
        (attrs : gmap string string) (contents : list node).

(** An element met while walking the document: its identity, the names of
    its ancestors (nearest first) and the tag itself. *)
Record element : Type := Element {
  el_id : nat;
  el_parents : list string;
  el_tag : node
}.

(** [element.name] *)
Definition tag_name (n : node) : string :=
  match n with
  | NavigableString _ => ""
  | Tag nm _ _ _ => nm
  end.

(** [element.get('class', [])] *)
Definition get_class (n : node) : list string :=
  match n with
  | NavigableString _ => []
  | Tag _ cls _ _ => cls
  end.

(** [element.get(key)] for an attribute other than [class] *)
Definition get_attr (n : node) (key : string) : option string :=
  match n with
  | NavigableString _ => None
  | Tag _ _ at_ _ => at_ !! key
  end.

(** [element.get_text()]: the strings below the node, in document order,
    joined. *)
Fixpoint get_text (n : node) : string :=
  match n with
  | NavigableString s => s
  | Tag _ _ _ cs =>
      (fix texts (l : list node) : string :=
         match l with
         | [] => ""
         | c :: l' => get_text c +:+ texts l'
         end) cs
  end.

(** The tags at and below a node, in document order, each with the names
    of its ancestors. *)
Fixpoint walk (parents : list string) (n : node) : list (list string * node) :=
  match n with
  | NavigableString _ => []
  | Tag nm _ _ cs =>
      (parents, n) ::
      (fix below (l : list node) : list (list string * node) :=
         match l with
         | [] => []
         | c :: l' => walk (nm :: parents) c ++ below l'
         end) cs
  end.

(** The tags below a list of sibling nodes. *)
Definition walk_all (parents : list string) (l : list node)
  : list (list string * node) :=
  flat_map (walk parents) l.

(** All elements of a document, in document order; the identity of an
    element is its rank in that order. *)
Definition descendants (soup : list node) : list element :=
  imap (fun i pn => Element i (fst pn) (snd pn)) (walk_all [] soup).

(** [soup.find_all(name)] *)
Definition find_all (soup : list node) (nm : string) : list element :=
  List.filter (fun e => String.eqb (tag_name (el_tag e)) nm) (descendants soup).

(** [soup.find(name)] *)
Definition find (soup : list node) (nm : string) : option element :=
  head (find_all soup nm).

(** [soup.find(name, attrs={key: value})] *)
Definition find_attr (soup : list node) (nm key value : string)
  : option element :=
  head (List.filter
          (fun e => String.eqb (tag_name (el_tag e)) nm
                    && bool_decide (get_attr (el_tag e) key = Some value))
          (descendants soup)).

(** [element.find(name)]: the first tag of that name strictly below the
    element. *)
Definition find_below (n : node) (nm : string) : option node :=
  match n with
  | NavigableString _ => None
  | Tag _ _ _ cs =>
      head (List.filter (fun t => String.eqb (tag_name t) nm)
                        (map snd (walk_all [] cs)))
  end.

(** The CSS selectors the scraper uses. *)
Inductive selector : Type :=
  | Descendant (ancestor tag : string)   (* "a b" *)
  | TypeSel (tag : string)               (* "a" *)
  | ClassSel (cls : string)              (* ".c" *)
  | ClassContains (sub : string).        (* [class*="sub"] *)

Definition selector_matches (sel : selector) (e : element) : bool :=
  match sel with
  | Descendant anc tg =>
      String.eqb (tag_name (el_tag e)) tg
      && existsb (String.eqb anc) (el_parents e)
  | TypeSel tg => String.eqb (tag_name (el_tag e)) tg
  | ClassSel c => existsb (String.eqb c) (get_class (el_tag e))
  | ClassContains sub =>
      Text.contains sub (Text.join_sp (get_class (el_tag e)))
  end.

(** [soup.select(selector)]: the matching elements in document order. *)
Definition select (soup : list node) (sel : selector) : list element :=
  List.filter (selector_matches sel) (descendants soup).

(* ===================================================================== *)
(** ** Language recognition *)
(* ===================================================================== *)

Definition language_prefixes : list string :=
  ["language-"; "lang-"; "highlight-"].

Definition known_languages : list string :=
  ["python"; "javascript"; "html"; "css"; "java"; "cpp"; "c"; "sql";
   "json"; "xml"].

(** The loop of [extract_code_language] over the class list.  The result
    of the first branch is [cls.split('-', 1)[1]]. *)
Fixpoint language_of_classes (classes : list string) : option string :=
  match classes with
  | [] => None
  | cls :: rest =>
      if Text.startswith_any language_prefixes cls
      then Text.split1 "-" cls !! 1%nat
      else if bool_decide (cls ∈ known_languages) then Some cls
      else language_of_classes rest
  end.

Definition extract_code_language (element : node) : option string :=
  language_of_classes (get_class element).

(* ===================================================================== *)
(** ** Result records *)
(* ===================================================================== *)

Module CodeBlock.
Record t : Type := mk {
  language : option string;
  content : string;
  tag : string
}.
End CodeBlock.

Module ScrapedContent.
Record t : Type := mk {
  url : string;
  title : option string;
  headers : gmap string (list string);
  paragraphs : list string;
  code_blocks : list CodeBlock.t;
  meta_description : option string;
  status_code : Z
}.
End ScrapedContent.

Module HTTPException.
Record t : Type := mk {
  status_code : Z;
  detail : string
}.
End HTTPException.

(* ===================================================================== *)
(** ** The extraction steps of [scrape_website] *)
(* ===================================================================== *)

(** [title = clean_text(title_tag.get_text()) if title_tag else None];
    a tag is always true. *)
Definition extract_title (soup : list node) : option string :=
  match find soup "title" with
  | Some title_tag => Some (clean_text (get_text (el_tag title_tag)))
  | None => None
  end.

(** [meta_description = meta_desc.get('content') if meta_desc else None] *)
Definition extract_meta_description (soup : list node) : option string :=
  match find_attr soup "meta" "name" "description" with
  | Some meta_desc => get_attr (el_tag meta_desc) "content"
  | None => None
  end.

(** [[clean_text(x.get_text()) for x in elements if clean_text(x.get_text())]] *)
Definition clean_texts (elements : list element) : list string :=
  map (fun x => clean_text (get_text (el_tag x)))
      (List.filter (fun x => Text.truthy (clean_text (get_text (el_tag x))))
                   elements).

(** [f'h{i}'] *)
Definition header_tag (i : nat) : string :=
  "h" +:+ NilEmpty.string_of_uint (Nat.to_uint i).

(** One round of the loop over the heading levels. *)
Definition headers_step (soup : list node)
    (headers_dict : gmap string (list string)) (i : nat)
  : gmap string (list string) :=
  let header_elements := find_all soup (header_tag i) in
  match header_elements with
  | [] => headers_dict
  | _ :: _ => <[header_tag i := clean_texts header_elements]> headers_dict
  end.

(** [for i in range(1, 7): ...] from the empty dictionary. *)
Definition extract_headers (soup : list node) : gmap string (list string) :=
  fold_left (headers_step soup) (seq 1 6) ∅.

Definition extract_paragraphs (soup : list node) : list string :=
  clean_texts (find_all soup "p").

Definition code_selectors : list selector :=
  [ Descendant "pre" "code";
    TypeSel "pre";
    TypeSel "code";
    ClassSel "highlight";
    ClassSel "code-block";
    ClassSel "codehilite";
    ClassContains "language-";
    ClassContains "highlight-" ].

(** [not language] for an optional string: [None] and the empty string. *)
Definition falsy (language : option string) : bool :=
  match language with
  | None => true
  | Some s => negb (Text.truthy s)
  end.

(** The language of an element: its own classes, and for a [pre] holding a
    [code] whose own classes gave nothing, the classes of that [code]. *)
Definition determine_language (element : node) : option string :=
  let language := extract_code_language element in
  if String.eqb (tag_name element) "pre" then
    match find_below element "code" with
    | Some code_child =>
        if falsy language then extract_code_language code_child else language
    | None => language
    end
  else language.

(** The block appended for an element. *)
Definition code_block_of (element : node) : CodeBlock.t :=
  CodeBlock.mk (determine_language element)
               (Text.strip (get_text element))
               (tag_name element).

(** The body of the inner loop, on the pair of [processed_elements] and
    [code_blocks]. *)
Definition process_element (st : gset nat * list CodeBlock.t) (e : element)
  : gset nat * list CodeBlock.t :=
  let '(processed_elements, code_blocks) := st in
  if bool_decide (el_id e ∈ processed_elements) then st
  else
    let processed_elements := {[ el_id e ]} ∪ processed_elements in
    let content := get_text (el_tag e) in
    if negb (Text.truthy (Text.strip content))
    then (processed_elements, code_blocks)
    else (processed_elements, code_blocks ++ [code_block_of (el_tag e)]).

(** The two nested loops. *)
Definition process_selector (soup : list node)
    (st : gset nat * list CodeBlock.t) (sel : selector)
  : gset nat * list CodeBlock.t :=
  fold_left process_element (select soup sel) st.

Definition extract_code_blocks (soup : list node) : list CodeBlock.t :=
  snd (fold_left (process_selector soup) code_selectors (∅, [])).

(** The same loops, recording next to every appended block the identity
    of the element it was built from. *)
Definition process_element_traced
    (st : gset nat * list (nat * CodeBlock.t)) (e : element)
  : gset nat * list (nat * CodeBlock.t) :=
  let '(processed_elements, code_blocks) := st in
  if bool_decide (el_id e ∈ processed_elements) then st
  else
    let processed_elements := {[ el_id e ]} ∪ processed_elements in
    let content := get_text (el_tag e) in
    if negb (Text.truthy (Text.strip content))
    then (processed_elements, code_blocks)
    else (processed_elements,
          code_blocks ++ [(el_id e, code_block_of (el_tag e))]).

Definition process_selector_traced (soup : list node)
    (st : gset nat * list (nat * CodeBlock.t)) (sel : selector)
  : gset nat * list (nat * CodeBlock.t) :=
  fold_left process_element_traced (select soup sel) st.

Definition code_blocks_traced (soup : list node) : list (nat * CodeBlock.t) :=
  snd (fold_left (process_selector_traced soup) code_selectors (∅, [])).

(* ===================================================================== *)
(** ** The fetch and the whole operation *)
(* ===================================================================== *)

(** What [scrape_website] reads of a [requests.Response]; the body is
    given by the tree the parser builds from it. *)
Module Response.
Record t : Type := mk {
  status_code : Z;
  reason : string;
  url : string;
  soup : list node
}.
End Response.

(** The subclasses of [requests.exceptions.RequestException] a fetch can
    raise, each with its text. *)
Inductive RequestException : Type :=
  | Timeout (msg : string)
  | ConnectionError (msg : string)
  | HTTPError (msg : string)
  | OtherRequestException (msg : string).

(** [str(e)] *)
Definition exc_str (e : RequestException) : string :=
  match e with
  | Timeout m | ConnectionError m | HTTPError m | OtherRequestException m => m
  end.

Definition Z_str (z : Z) : string := NilEmpty.string_of_int (Z.to_int z).

(** [response.raise_for_status()]: an [HTTPError] for a status from 400 to
    599, nothing otherwise. *)
Definition raise_for_status (r : Response.t) : option RequestException :=
  let code := Response.status_code r in
  if (400 <=? code) && (code <? 500) then
    Some (HTTPError (Z_str code +:+ " Client Error: " +:+ Response.reason r
                     +:+ " for url: " +:+ Response.url r))
  else if (500 <=? code) && (code <? 600) then
    Some (HTTPError (Z_str code +:+ " Server Error: " +:+ Response.reason r
                     +:+ " for url: " +:+ Response.url r))
  else None.

(** [except requests.exceptions.RequestException as e] *)
Definition fetch_failure (e : RequestException) : HTTPException.t :=
  HTTPException.mk 400 ("Failed to fetch URL: " +:+ exc_str e).

(** The extraction proper, on a fetched response. *)
Definition extract (url : string) (response : Response.t) : ScrapedContent.t :=
  let soup := Response.soup response in
  ScrapedContent.mk url
    (extract_title soup)
    (extract_headers soup)
    (extract_paragraphs soup)
    (extract_code_blocks soup)
    (extract_meta_description soup)
    (Response.status_code response).

(** [scrape_website], given what [requests.get] did: it raised [e]
    ([inl e]) or returned a response ([inr response]).  The extraction
    steps above are total, so the handler of the other exceptions (status
    500) is not reached from them. *)
Definition scrape_website (url : string)
    (got : RequestException + Response.t)
  : HTTPException.t + ScrapedContent.t :=
  match got with
  | inl e => inl (fetch_failure e)
  | inr response =>
      match raise_for_status response with
      | Some e => inl (fetch_failure e)
      | None => inr (extract url response)
      end
  end.

(* ===================================================================== *)
(** ** The wording of the specification, for comparison *)
(* ===================================================================== *)

(** [e] is the first element of the document, in document order, that
    satisfies [P]. *)
Definition first_element_spec (soup : list node) (P : element -> Prop)
    (e : element) : Prop :=
  exists before after,
    descendants soup = before ++ e :: after /\ P e /\
    forall x, x ∈ before -> ~ P x.

(** No element of the document satisfies [P]. *)
Definition no_element_spec (soup : list node) (P : element -> Prop) : Prop :=
  forall x, x ∈ descendants soup -> ~ P x.

Definition is_named (nm : string) (e : element) : Prop :=
  tag_name (el_tag e) = nm.

Definition is_meta_description (e : element) : Prop :=
  tag_name (el_tag e) = "meta" /\ get_attr (el_tag e) "name" = Some "description".

(** A class carries one of the three prefixes. *)
Definition has_language_prefix_spec (cls : string) : Prop :=
  exists p rest, p ∈ language_prefixes /\ cls = p +:+ rest.

(** [r] is what follows the first hyphen of [cls]. *)
Definition after_first_hyphen_spec (cls r : string) : Prop :=
  exists a, cls = a +:+ "-" +:+ r /\ Text.occurs "-" a = false.

(** A class matches one of the two rules. *)
Definition recognized_spec (cls : string) : Prop :=
  has_language_prefix_spec cls \/ cls ∈ known_languages.

(** What a matching class yields: the prefix rule first, otherwise the
    known-language rule. *)
Definition class_yields_spec (cls r : string) : Prop :=
  (has_language_prefix_spec cls /\ after_first_hyphen_spec cls r)
  \/ (~ has_language_prefix_spec cls /\ cls ∈ known_languages /\ r = cls).

(** The exception that leaves the fetch, if any: the one [requests.get]
    raised, or the one [raise_for_status] raises on the response. *)
Definition fetch_error (got : RequestException + Response.t)
  : option RequestException :=
  match got with
  | inl e => Some e
  | inr response => raise_for_status response
  end.

(** The invariant of the recorded loops: no identity is recorded twice;
    every recorded entry belongs to a processed element of the document
    and holds the block built from it; every processed element with
    non-blank text has its entry. *)
Definition trace_inv (soup : list node)
    (st : gset nat * list (nat * CodeBlock.t)) : Prop :=
  NoDup (map fst (snd st))
  /\ (forall i b, (i, b) ∈ snd st ->
        i ∈ fst st /\
        exists e, e ∈ descendants soup /\ el_id e = i /\
                  b = code_block_of (el_tag e))
  /\ (forall e, e ∈ descendants soup -> el_id e ∈ fst st ->
        Text.truthy (Text.strip (get_text (el_tag e))) = true ->
        (el_id e, code_block_of (el_tag e)) ∈ snd st).

(* ===================================================================== *)
(** ** Shapes of texts *)
(* ===================================================================== *)

(** The first character of [s], if any, is not white space. *)
Definition starts_clean (s : string) : bool :=
  match s with
  | EmptyString => true
  | String c _ => negb (Text.isspace c)
  end.

(** Every white-space character of [s] is a space, and is followed by a
    character that is not white space. *)
Fixpoint single_spaced (s : string) : bool :=
  match s with
  | EmptyString => true
  | String c s' =>
      (if Text.isspace c
       then Ascii.eqb c " " && Text.truthy s' && starts_clean s'
       else true)
      && single_spaced s'
  end.

(** A text in normal form: no white space at either end, and single
    spaces only in between. *)
Definition normal_form (s : string) : bool :=
  starts_clean s && single_spaced s.

(** The characters of [s] that are not white space. *)
Fixpoint drop_spaces (s : string) : string :=
  match s with
  | EmptyString => EmptyString
  | String c s' =>
      if Text.isspace c then drop_spaces s' else String c (drop_spaces s')
  end.

(* ===================================================================== *)
(** ** The code blocks in closed form *)
(* ===================================================================== *)

(** The text of the element is not blank: [content.strip()] is true. *)
Definition nonblank (e : element) : bool :=
  Text.truthy (Text.strip (get_text (el_tag e))).

(** Some selector of the list matches the element. *)
Definition matches_any (sels : list selector) (e : element) : bool :=
  existsb (fun sel => selector_matches sel e) sels.

(** The identity of an element with the block built from it. *)
Definition entry_of (e : element) : nat * CodeBlock.t :=
  (el_id e, code_block_of (el_tag e)).

(** Selector by selector, the non-blank elements the selector matches and
    no selector before it does, in document order. *)
Fixpoint blocks_by_priority (soup : list node) (earlier sels : list selector)
  : list (nat * CodeBlock.t) :=
  match sels with
  | [] => []
  | sel :: rest =>
      map entry_of
          (List.filter
             (fun e => selector_matches sel e
                       && negb (matches_any earlier e) && nonblank e)
             (descendants soup))
      ++ blocks_by_priority soup (earlier ++ [sel]) rest
  end.


(** A top-level node that is a string. *)
Definition is_string (n : node) : Prop :=
  match n with
  | NavigableString _ => True
  | Tag _ _ _ _ => False
  end.

(* ===================================================================== *)
(** ** Documents used in the examples *)
(* ===================================================================== *)

Module Examples.

(** [<pre class="language-python"><code>print(1)</code></pre>] *)
Definition pre_python : list node :=
  [Tag "pre" ["language-python"] ∅
     [Tag "code" [] ∅ [NavigableString "print(1)"]]].

(** [<pre><code class="javascript">x</code></pre>] *)
Definition pre_code_js_code : node :=
  Tag "code" ["javascript"] ∅ [NavigableString "x"].
Definition pre_code_js_pre : node := Tag "pre" [] ∅ [pre_code_js_code].
Definition pre_code_js : list node := [pre_code_js_pre].

(** [<pre><code>foo</code></pre>] *)
Definition pre_code_foo : list node :=
  [Tag "pre" [] ∅ [Tag "code" [] ∅ [NavigableString "foo"]]].

(** [<div><pre><code>foo</code></pre></div><pre><code>foo</code></pre>] *)
Definition two_pre_code_foo : list node :=
  [Tag "div" [] ∅ pre_code_foo] ++ pre_code_foo.

(** [<h1>  </h1>] *)
Definition blank_h1 : list node := [Tag "h1" [] ∅ [NavigableString "  "]].

(** [<h1>  </h1><h2> Intro  one </h2><h2></h2><h2>Two</h2>] *)
Definition headings : list node :=
  [Tag "h1" [] ∅ [NavigableString "  "];
   Tag "h2" [] ∅ [NavigableString " Intro  one "];
   Tag "h2" [] ∅ [];
   Tag "h2" [] ∅ [NavigableString "Two"]].

(** [<html><head><title> a  b </title>
     <meta name="description" content=" x  y "></head>
     <body><p> one  two </p><p>  </p><p>three</p></body></html>] *)
Definition title_tag : node := Tag "title" [] ∅ [NavigableString " a  b "].
Definition meta_tag : node :=
  Tag "meta" [] (<["content" := " x  y "]> {["name" := "description"]}) [].
Definition page : list node :=
  [Tag "html" [] ∅
     [Tag "head" [] ∅ [title_tag; meta_tag];
      Tag "body" [] ∅
        [Tag "p" [] ∅ [NavigableString " one  two "];
         Tag "p" [] ∅ [NavigableString "  "];
         Tag "p" [] ∅ [NavigableString "three"]]]].

Definition response (code : Z) (soup : list node) : Response.t :=
  Response.mk code "Reason" "http://example.com/" soup.

End Examples.

(* ===================================================================== *)
(** ** Facts about the text primitives *)
(* ===================================================================== *)

Section TextFacts.
Import Text.

Lemma rstrip_cons c s :
  rstrip (String c s) =
  if truthy (rstrip s) then String c (rstrip s)
  else if isspace c then EmptyString else String c EmptyString.
Proof. simpl. destruct (rstrip s); reflexivity. Qed.

Lemma truthy_false s : truthy s = false -> s = EmptyString.
Proof. destruct s; [reflexivity | discriminate]. Qed.

Lemma rstrip_empty_iff s : rstrip s = EmptyString <-> all_space s = true.
Proof.
  induction s as [|c s IH]; [split; reflexivity|].
  rewrite rstrip_cons. simpl all_space. rewrite andb_true_iff, <- IH.
  destruct (rstrip s) eqn:E; simpl.
  - destruct (isspace c); split; try tauto; try discriminate.
    intros [? _]; discriminate.
  - split; [discriminate | intros [_ ?]; discriminate].
Qed.

Lemma rstrip_all_space s : all_space (rstrip s) = true -> rstrip s = EmptyString.
Proof.
  induction s as [|c s IH]; [reflexivity|].
  rewrite rstrip_cons.
  destruct (rstrip s) eqn:E; simpl.
  - destruct (isspace c) eqn:Ec; [reflexivity|].
    simpl. rewrite Ec. discriminate.
  - rewrite andb_true_iff. intros [_ H]. specialize (IH H). discriminate.
Qed.

(** [rstrip] drops a trailing run of white space and stops at the last
    character that is not white space. *)
Lemma rstrip_app_space s ws : all_space ws = true -> rstrip (s +:+ ws) = rstrip s.
Proof.
  intros Hws. induction s as [|c s IH].
  - apply rstrip_empty_iff, Hws.
  - change (String c s +:+ ws) with (String c (s +:+ ws)).
    rewrite !rstrip_cons, IH. reflexivity.
Qed.

Lemma rstrip_app_nonspace s c :
  isspace c = false -> rstrip (s +:+ String c "") = s +:+ String c "".
Proof.
  intros Hc. induction s as [|d s IH].
  - simpl. rewrite Hc. reflexivity.
  - change (String d s +:+ String c "") with (String d (s +:+ String c "")).
    rewrite rstrip_cons, IH. destruct s; reflexivity.
Qed.

Lemma all_space_lstrip s : all_space (lstrip s) = true -> all_space s = true.
Proof.
  induction s as [|c s IH]; [reflexivity|].
  simpl. destruct (isspace c) eqn:Ec; simpl; [exact IH|].
  rewrite Ec. discriminate.
Qed.

Lemma sub_ws_empty b s : sub_ws b s = EmptyString -> all_space s = true.
Proof.
  revert b. induction s as [|c s IH]; intros b; [reflexivity|].
  simpl. destruct (isspace c); [|discriminate].
  destruct b; [|discriminate]. apply IH.
Qed.

(** Stripping on the left commutes with the replacement of the runs. *)
Lemma lstrip_sub_ws b s : lstrip (sub_ws b s) = sub_ws false (lstrip s).
Proof.
  revert b. induction s as [|c s IH]; intros b; [reflexivity|].
  simpl. destruct (isspace c) eqn:Ec.
  - destruct b; simpl; apply IH.
  - simpl. rewrite Ec. reflexivity.
Qed.

Lemma sub_ws_rstrip_truthy b s :
  truthy (rstrip s) = true -> truthy (sub_ws b (rstrip s)) = true.
Proof.
  intros H. destruct (sub_ws b (rstrip s)) eqn:E; [|reflexivity].
  apply sub_ws_empty, rstrip_all_space in E. rewrite E in H. discriminate.
Qed.

(** Stripping on the right commutes with the replacement of the runs. *)
Lemma rstrip_sub_ws b s : rstrip (sub_ws b s) = sub_ws b (rstrip s).
Proof.
  revert b. induction s as [|c s IH]; intros b; [reflexivity|].
  rewrite rstrip_cons.
  destruct (truthy (rstrip s)) eqn:Et.
  - simpl. destruct (isspace c) eqn:Ec.
    + destruct b.
      * apply IH.
      * rewrite rstrip_cons, IH, (sub_ws_rstrip_truthy true s Et). reflexivity.
    + rewrite rstrip_cons, IH, (sub_ws_rstrip_truthy false s Et). reflexivity.
  - apply truthy_false in Et.
    simpl. destruct (isspace c) eqn:Ec.
    + destruct b.
      * rewrite IH, Et. reflexivity.
      * rewrite rstrip_cons, IH, Et. reflexivity.
    + rewrite rstrip_cons, IH, Et. simpl. rewrite Ec. reflexivity.
Qed.

(** [clean_text] strips and then collapses; the specification collapses
    and then trims.  The two agree on every text. *)
Lemma clean_text_normalize text : clean_text text = normalize_spec text.
Proof.
  unfold clean_text, normalize_spec, re_sub_ws, strip.
  rewrite rstrip_sub_ws, lstrip_sub_ws.
  destruct text; reflexivity.
Qed.

Lemma clean_text_empty_iff text :
  clean_text text = EmptyString <-> all_space text = true.
Proof.
  unfold clean_text, re_sub_ws, strip. split.
  - destruct text as [|c s]; [reflexivity|]. cbn [truthy negb].
    intros H. apply sub_ws_empty, all_space_lstrip, rstrip_all_space in H.
    apply rstrip_empty_iff, H.
  - intros H. destruct text as [|c s]; [reflexivity|]. cbn [truthy negb].
    apply rstrip_empty_iff in H. rewrite H. reflexivity.
Qed.

Lemma truthy_true_iff s : truthy s = true <-> s <> EmptyString.
Proof. destruct s; simpl; split; congruence. Qed.

Example clean_text_runs :
  clean_text (String "009" "  a " +:+ String "010" (String "009" "b  c ")) = "a b c".
Proof. reflexivity. Qed.

Example strip_keeps_inner_runs : strip "  a   b " = "a   b".
Proof. reflexivity. Qed.

End TextFacts.

(* ===================================================================== *)
(** ** Facts about the language recognition *)
(* ===================================================================== *)

Section LanguageFacts.
Import Text.

Lemma append_cons c p r : String c p +:+ r = String c (p +:+ r).
Proof. reflexivity. Qed.

Lemma startswith_iff p s : startswith p s = true <-> exists r, s = p +:+ r.
Proof.
  revert s. induction p as [|a p IH]; intros s; simpl.
  - split; [intros _; exists s; reflexivity | reflexivity].
  - destruct s as [|b s].
    + split; [discriminate | intros [r H]; rewrite append_cons in H; discriminate].
    + destruct (Ascii.eqb_spec a b) as [->|Hne].
      * rewrite IH. split; intros [r H]; exists r;
          rewrite append_cons in *; congruence.
      * split; [discriminate | intros [r H]; rewrite append_cons in H; congruence].
Qed.

Lemma startswith_any_iff cls :
  startswith_any language_prefixes cls = true <-> has_language_prefix_spec cls.
Proof.
  unfold startswith_any, has_language_prefix_spec.
  rewrite existsb_exists. split.
  - intros (p & Hin & Hp). apply startswith_iff in Hp as [r Hr].
    exists p, r. split; [apply list_elem_of_In, Hin | exact Hr].
  - intros (p & r & Hin & Hr). exists p. split; [apply list_elem_of_In, Hin|].
    apply startswith_iff. exists r. exact Hr.
Qed.

(** Boolean form of [recognized_spec]. *)
Lemma recognized_iff cls :
  recognized_spec cls <->
  startswith_any language_prefixes cls || bool_decide (cls ∈ known_languages) = true.
Proof.
  unfold recognized_spec.
  rewrite orb_true_iff, startswith_any_iff, bool_decide_eq_true. reflexivity.
Qed.

Lemma split1_first sep a r :
  occurs sep a = false -> split1 sep (a +:+ String sep r) = [a; r].
Proof.
  induction a as [|c a IH].
  - intros _. change (EmptyString +:+ String sep r) with (String sep r).
    simpl. rewrite Ascii.eqb_refl. reflexivity.
  - rewrite append_cons. simpl.
    rewrite orb_false_iff. intros [Hc Ha]. rewrite Hc, (IH Ha). reflexivity.
Qed.

(** The index [[1]] never fails after the prefix test: each prefix holds a
    hyphen. *)
Lemma split1_defined cls :
  startswith_any language_prefixes cls = true ->
  is_Some (split1 "-" cls !! 1%nat).
Proof.
  unfold startswith_any, language_prefixes. cbn [existsb].
  rewrite !orb_true_iff, !startswith_iff.
  intros [[r ->]|[[r ->]|[[r ->]|?]]]; [| | |discriminate].
  - change ("language-" +:+ r) with ("language" +:+ String "-" r).
    rewrite (split1_first "-" "language" r eq_refl). eexists; reflexivity.
  - change ("lang-" +:+ r) with ("lang" +:+ String "-" r).
    rewrite (split1_first "-" "lang" r eq_refl). eexists; reflexivity.
  - change ("highlight-" +:+ r) with ("highlight" +:+ String "-" r).
    rewrite (split1_first "-" "highlight" r eq_refl). eexists; reflexivity.
Qed.

Lemma language_of_classes_skip before rest :
  (forall c, c ∈ before -> ~ recognized_spec c) ->
  language_of_classes (before ++ rest) = language_of_classes rest.
Proof.
  induction before as [|c before IH]; intros H; [reflexivity|].
  cbn [app language_of_classes].
  assert (Hc : ~ recognized_spec c) by (apply H; left).
  rewrite recognized_iff, orb_true_iff in Hc.
  destruct (startswith_any language_prefixes c); [tauto|].
  destruct (bool_decide (c ∈ known_languages)); [tauto|].
  apply IH. intros x Hx. apply H. right. exact Hx.
Qed.

Lemma language_of_classes_yields cls rest r :
  class_yields_spec cls r -> language_of_classes (cls :: rest) = Some r.
Proof.
  intros [[Hp (a & Hcls & Ha)] | (Hn & Hk & ->)]; cbn [language_of_classes].
  - apply startswith_any_iff in Hp. rewrite Hp.
    rewrite Hcls. change (a +:+ "-" +:+ r) with (a +:+ String "-" r).
    rewrite (split1_first _ _ _ Ha). reflexivity.
  - rewrite <- startswith_any_iff in Hn.
    destruct (startswith_any language_prefixes cls); [tauto|].
    rewrite bool_decide_eq_true_2 by exact Hk. reflexivity.
Qed.

End LanguageFacts.

(** C5. Language recognition over the class list of an element: the first
    class, in list order, that carries one of the prefixes [language-],
    [lang-], [highlight-] or equals a known language decides the result;
    a prefixed class yields what follows its first hyphen, otherwise a
    known language yields itself; when no class matches the language is
    absent. *)
Theorem extract_code_language_rules (element : node) :
  (forall before cls after r,
      get_class element = before ++ cls :: after ->
      (forall c, c ∈ before -> ~ recognized_spec c) ->
      class_yields_spec cls r ->
      extract_code_language element = Some r)
  /\ ((forall c, c ∈ get_class element -> ~ recognized_spec c) ->
      extract_code_language element = None).
Proof.
  unfold extract_code_language. split.
  - intros before cls after r -> Hb Hy.
    rewrite (language_of_classes_skip _ _ Hb).
    apply language_of_classes_yields, Hy.
  - intros H. rewrite <- (app_nil_r (get_class element)).
    rewrite (language_of_classes_skip _ _ H). reflexivity.
Qed.

Lemma extract_code_language_rules_witness :
  let element := Tag "code" ["foo"; "lang-a-b"; "python"] ∅ [] in
  (get_class element = ["foo"] ++ "lang-a-b" :: ["python"]
   /\ (forall c, c ∈ ["foo"] -> ~ recognized_spec c)
   /\ class_yields_spec "lang-a-b" "a-b"
   /\ extract_code_language element = Some "a-b")
  /\ ((forall c, c ∈ get_class (Tag "p" ["note"; "wide"] ∅ []) ->
       ~ recognized_spec c)
      /\ extract_code_language (Tag "p" ["note"; "wide"] ∅ []) = None).
Proof.
  intros element.
  assert (H1 : get_class element = ["foo"] ++ "lang-a-b" :: ["python"])
    by reflexivity.
  assert (H2 : forall c, c ∈ ["foo"] -> ~ recognized_spec c).
  { intros c Hc. apply list_elem_of_singleton in Hc. subst c.
    rewrite recognized_iff. vm_compute. discriminate. }
  assert (H3 : class_yields_spec "lang-a-b" "a-b").
  { left. split.
    - exists "lang-", "a-b". split; [|reflexivity].
      unfold language_prefixes. right; left.
    - exists "lang". split; reflexivity. }
  assert (H4 : forall c, c ∈ get_class (Tag "p" ["note"; "wide"] ∅ []) ->
                         ~ recognized_spec c).
  { intros c Hc. simpl in Hc. rewrite recognized_iff.
    apply elem_of_cons in Hc as [->|Hc];
      [|apply list_elem_of_singleton in Hc; subst c]; vm_compute; discriminate. }
  split.
  - split; [exact H1|]. split; [exact H2|]. split; [exact H3|].
    exact (proj1 (extract_code_language_rules element) _ _ _ _ H1 H2 H3).
  - split; [assumption|].
    exact (proj2 (extract_code_language_rules _) H4).
Defined.

(* ===================================================================== *)
(** ** Facts about the code-block loops *)
(* ===================================================================== *)

Section DocumentFacts.
Variable soup : list node.

Lemma descendants_lookup i e : descendants soup !! i = Some e -> el_id e = i.
Proof.
  unfold descendants. rewrite list_lookup_imap.
  destruct (walk_all [] soup !! i); simpl; [|discriminate].
  intros [= <-]. reflexivity.
Qed.

Lemma descendants_id_inj e1 e2 :
  e1 ∈ descendants soup -> e2 ∈ descendants soup ->
  el_id e1 = el_id e2 -> e1 = e2.
Proof.
  intros [i Hi]%list_elem_of_lookup [j Hj]%list_elem_of_lookup Heq.
  rewrite (descendants_lookup _ _ Hi), (descendants_lookup _ _ Hj) in Heq.
  subst j. congruence.
Qed.

Lemma select_iff sel e :
  e ∈ select soup sel <-> e ∈ descendants soup /\ selector_matches sel e = true.
Proof.
  unfold select. rewrite !list_elem_of_In, filter_In. reflexivity.
Qed.

Lemma process_element_traced_grows st e :
  fst st ⊆ fst (process_element_traced st e)
  /\ el_id e ∈ fst (process_element_traced st e).
Proof.
  destruct st as [P T]. unfold process_element_traced.
  case_bool_decide as Hin; [split; [reflexivity|exact Hin]|].
  destruct (negb _); simpl; (split; [apply union_subseteq_r|]);
    apply elem_of_union_l, elem_of_singleton; reflexivity.
Qed.

Lemma process_element_traced_inv st e :
  e ∈ descendants soup -> trace_inv soup st ->
  trace_inv soup (process_element_traced st e).
Proof.
  intros He (Hnd & Hsrc & Hcov). destruct st as [P T]. simpl in *.
  unfold process_element_traced.
  case_bool_decide as Hin; [split; [|split]; assumption|].
  destruct (Text.truthy (Text.strip (get_text (el_tag e)))) eqn:Ht;
    unfold trace_inv; simpl.
  - split; [|split].
    + rewrite map_app. simpl. apply NoDup_app. split; [exact Hnd|].
      split; [|apply NoDup_singleton].
      intros i Hi Hi'. apply list_elem_of_singleton in Hi'. subst i.
      apply list_elem_of_fmap in Hi as [[i b] [Hib Hmem]]. simpl in Hib. subst i.
      apply Hin, (Hsrc _ _ Hmem).
    + intros i b [Hmem|Hmem%list_elem_of_singleton]%elem_of_app.
      * destruct (Hsrc _ _ Hmem) as [HiP Hex]. split; [apply elem_of_union_r, HiP|exact Hex].
      * injection Hmem as -> ->.
        split; [apply elem_of_union_l, elem_of_singleton; reflexivity|].
        exists e. auto.
    + intros x Hx Hid Htx. apply elem_of_app.
      destruct (decide (el_id x = el_id e)) as [Heq|Hne].
      * right. rewrite (descendants_id_inj _ _ Hx He Heq). left.
      * left. apply elem_of_union in Hid as [Hid%elem_of_singleton|Hid];
          [contradiction|]. apply Hcov; assumption.
  - split; [exact Hnd|]. split.
    + intros i b Hmem. destruct (Hsrc _ _ Hmem) as [HiP Hex].
      split; [apply elem_of_union_r, HiP|exact Hex].
    + intros x Hx Hid Htx.
      destruct (decide (el_id x = el_id e)) as [Heq|Hne].
      * rewrite (descendants_id_inj _ _ Hx He Heq) in Htx. congruence.
      * apply elem_of_union in Hid as [Hid%elem_of_singleton|Hid];
          [contradiction|]. apply Hcov; assumption.
Qed.


Lemma fold_traced_inv l st :
  (forall e, e ∈ l -> e ∈ descendants soup) -> trace_inv soup st ->
  trace_inv soup (fold_left process_element_traced l st).
Proof.
  revert st. induction l as [|e l IH]; intros st Hl Hst; [exact Hst|].
  simpl. apply IH.
  - intros x Hx. apply Hl. right. exact Hx.
  - apply process_element_traced_inv; [apply Hl; left | exact Hst].
Qed.

Lemma fold_traced_grows l st :
  fst st ⊆ fst (fold_left process_element_traced l st)
  /\ forall e, e ∈ l -> el_id e ∈ fst (fold_left process_element_traced l st).
Proof.
  revert st. induction l as [|e l IH]; intros st.
  - split; [reflexivity|]. intros e He. inversion He.
  - simpl. destruct (IH (process_element_traced st e)) as [Hsub Hall].
    destruct (process_element_traced_grows st e) as [Hsub' Hin'].
    split; [etransitivity; eassumption|].
    intros x [->|Hx]%elem_of_cons; [apply Hsub, Hin' | apply Hall, Hx].
Qed.

Lemma selectors_traced_inv sels st :
  trace_inv soup st ->
  trace_inv soup (fold_left (process_selector_traced soup) sels st).
Proof.
  revert st. induction sels as [|sel sels IH]; intros st Hst; [exact Hst|].
  simpl. apply IH. unfold process_selector_traced.
  apply fold_traced_inv; [|exact Hst].
  intros e He. apply select_iff in He. tauto.
Qed.

Lemma selectors_traced_grows sels st :
  fst st ⊆ fst (fold_left (process_selector_traced soup) sels st)
  /\ forall sel e, sel ∈ sels -> e ∈ select soup sel ->
       el_id e ∈ fst (fold_left (process_selector_traced soup) sels st).
Proof.
  revert st. induction sels as [|sel sels IH]; intros st.
  - split; [reflexivity|]. intros sel e Hsel. inversion Hsel.
  - simpl. destruct (IH (process_selector_traced soup st sel)) as [Hsub Hall].
    destruct (fold_traced_grows (select soup sel) st) as [Hsub' Hin'].
    split; [etransitivity; eassumption|].
    intros s x [->|Hs]%elem_of_cons Hx.
    + apply Hsub, Hin', Hx.
    + eapply Hall; eassumption.
Qed.

(** The recorded loops and the loops of the source build the same blocks
    and the same set of processed elements. *)
Lemma process_element_erase P T e :
  process_element (P, map snd T) e =
  (fst (process_element_traced (P, T) e),
   map snd (snd (process_element_traced (P, T) e))).
Proof.
  unfold process_element, process_element_traced.
  case_bool_decide; [reflexivity|].
  destruct (negb _); simpl; [reflexivity|].
  rewrite map_app. reflexivity.
Qed.

Lemma fold_erase l P T :
  fold_left process_element l (P, map snd T) =
  (fst (fold_left process_element_traced l (P, T)),
   map snd (snd (fold_left process_element_traced l (P, T)))).
Proof.
  revert P T. induction l as [|e l IH]; intros P T; [reflexivity|].
  cbn [fold_left]. rewrite process_element_erase.
  destruct (process_element_traced (P, T) e) as [P' T']. apply IH.
Qed.

Lemma selectors_erase sels P T :
  fold_left (process_selector soup) sels (P, map snd T) =
  (fst (fold_left (process_selector_traced soup) sels (P, T)),
   map snd (snd (fold_left (process_selector_traced soup) sels (P, T)))).
Proof.
  revert P T. induction sels as [|sel sels IH]; intros P T; [reflexivity|].
  cbn [fold_left]. unfold process_selector at 2, process_selector_traced at 2 4.
  rewrite fold_erase.
  destruct (fold_left process_element_traced (select soup sel) (P, T))
    as [P' T']. apply IH.
Qed.

Lemma trace_inv_init : trace_inv soup (∅, []).
Proof.
  split; [apply NoDup_nil_2|]. split.
  - intros i b H. inversion H.
  - intros e _ H. simpl in H. apply not_elem_of_empty in H. contradiction.
Qed.

Lemma code_blocks_erase :
  map snd (code_blocks_traced soup) = extract_code_blocks soup.
Proof.
  unfold code_blocks_traced, extract_code_blocks.
  change (∅, []) with (∅ : gset nat, map snd ([] : list (nat * CodeBlock.t))) at 2.
  rewrite selectors_erase. reflexivity.
Qed.

End DocumentFacts.

(** C3. De-duplication is by element identity: the blocks of the result
    are the recorded ones, no two recorded blocks come from the same
    element and each is the block of an element of the document; two
    distinct elements that match a selector and hold the same non-blank
    text each have their own entry; and for a single [pre] holding a
    [code] the [code] element is listed once, although both the
    selectors [pre code] and [code] match it. *)
Theorem code_blocks_dedup_by_identity (soup : list node) :
  map snd (code_blocks_traced soup) = extract_code_blocks soup
  /\ NoDup (map fst (code_blocks_traced soup))
  /\ (forall i b, (i, b) ∈ code_blocks_traced soup ->
        exists e, e ∈ descendants soup /\ el_id e = i /\
                  b = code_block_of (el_tag e))
  /\ (forall e1 e2 sel1 sel2,
        e1 ∈ descendants soup -> e2 ∈ descendants soup ->
        el_id e1 <> el_id e2 ->
        sel1 ∈ code_selectors -> selector_matches sel1 e1 = true ->
        sel2 ∈ code_selectors -> selector_matches sel2 e2 = true ->
        get_text (el_tag e1) = get_text (el_tag e2) ->
        Text.truthy (Text.strip (get_text (el_tag e1))) = true ->
        (el_id e1, code_block_of (el_tag e1)) ∈ code_blocks_traced soup
        /\ (el_id e2, code_block_of (el_tag e2)) ∈ code_blocks_traced soup)
  /\ code_blocks_traced Examples.pre_code_foo =
       [(1%nat, CodeBlock.mk None "foo" "code");
        (0%nat, CodeBlock.mk None "foo" "pre")].
Proof.
  pose proof (selectors_traced_inv soup code_selectors _ (trace_inv_init soup))
    as (Hnd & Hsrc & Hcov).
  pose proof (selectors_traced_grows soup code_selectors (∅, [])) as [_ Hall].
  fold (code_blocks_traced soup) in Hnd, Hsrc, Hcov.
  split; [apply code_blocks_erase|].
  split; [exact Hnd|].
  split; [intros i b H; apply (Hsrc i b H)|].
  split; [|vm_compute; reflexivity].
  intros e1 e2 sel1 sel2 He1 He2 _ Hs1 Hm1 Hs2 Hm2 Htxt Hne.
  split; apply Hcov; try assumption.
  - apply (Hall sel1); [exact Hs1|]. apply select_iff. split; assumption.
  - apply (Hall sel2); [exact Hs2|]. apply select_iff. split; assumption.
  - rewrite <- Htxt. exact Hne.
Qed.

Lemma code_blocks_dedup_by_identity_witness :
  let soup := Examples.two_pre_code_foo in
  let code := Tag "code" [] ∅ [NavigableString "foo"] in
  let e1 := Element 2 ["pre"; "div"] code in
  let e2 := Element 4 ["pre"] code in
  (e1 ∈ descendants soup /\ e2 ∈ descendants soup
   /\ el_id e1 <> el_id e2
   /\ Descendant "pre" "code" ∈ code_selectors
   /\ selector_matches (Descendant "pre" "code") e1 = true
   /\ TypeSel "code" ∈ code_selectors
   /\ selector_matches (TypeSel "code") e2 = true
   /\ get_text (el_tag e1) = get_text (el_tag e2)
   /\ Text.truthy (Text.strip (get_text (el_tag e1))) = true)
  /\ (2%nat, CodeBlock.mk None "foo" "code") ∈ code_blocks_traced soup
  /\ (4%nat, CodeBlock.mk None "foo" "code") ∈ code_blocks_traced soup.
Proof.
  intros soup code e1 e2.
  assert (H1 : e1 ∈ descendants soup)
    by (apply list_elem_of_In; vm_compute; tauto).
  assert (H2 : e2 ∈ descendants soup)
    by (apply list_elem_of_In; vm_compute; tauto).
  assert (H3 : el_id e1 <> el_id e2) by (simpl; lia).
  assert (H4 : Descendant "pre" "code" ∈ code_selectors)
    by (apply list_elem_of_In; vm_compute; tauto).
  assert (H5 : selector_matches (Descendant "pre" "code") e1 = true)
    by reflexivity.
  assert (H6 : TypeSel "code" ∈ code_selectors)
    by (apply list_elem_of_In; vm_compute; tauto).
  assert (H7 : selector_matches (TypeSel "code") e2 = true) by reflexivity.
  assert (H8 : get_text (el_tag e1) = get_text (el_tag e2)) by reflexivity.
  assert (H9 : Text.truthy (Text.strip (get_text (el_tag e1))) = true)
    by reflexivity.
  split; [tauto|].
  exact (proj1 (proj2 (proj2 (proj2 (code_blocks_dedup_by_identity soup))))
           e1 e2 _ _ H1 H2 H3 H4 H5 H6 H7 H8 H9).
Defined.

(** A highlighted container and a class that only contains [language-]:
    the fourth and the seventh selector. *)
Example highlight_blocks :
  extract_code_blocks
    [Tag "div" ["highlight"] ∅
       [Tag "span" ["x"; "language-go"] ∅ [NavigableString " a "];
        Tag "span" ["xlanguage-go"] ∅ [NavigableString "b"];
        Tag "span" ["language-rust"] ∅ [NavigableString "  "]]] =
  [CodeBlock.mk None "a b" "div";
   CodeBlock.mk (Some "go") "a" "span";
   CodeBlock.mk None "b" "span"].
Proof. vm_compute. reflexivity. Qed.

(** The specification's example of two identical [pre]/[code] pairs under
    different ancestors: four blocks, one per element. *)
Example two_pre_code_foo_blocks :
  code_blocks_traced Examples.two_pre_code_foo =
    [(2%nat, CodeBlock.mk None "foo" "code");
     (4%nat, CodeBlock.mk None "foo" "code");
     (1%nat, CodeBlock.mk None "foo" "pre");
     (3%nat, CodeBlock.mk None "foo" "pre")].
Proof. vm_compute. reflexivity. Qed.

(* ===================================================================== *)
(** ** The two documents of the specification's examples *)
(* ===================================================================== *)

(** C1, as stated, fails: the document
    [<pre class="language-python"><code>print(1)</code></pre>] does not
    yield a single block. *)
Lemma pre_python_not_one_block :
  ~ (exists b,
        ScrapedContent.code_blocks
          (extract "http://example.com/"
                   (Examples.response 200 Examples.pre_python)) = [b]
        /\ CodeBlock.language b = Some "python"
        /\ CodeBlock.tag b = "pre").
Proof.
  intros (b & Hb & _). vm_compute in Hb. discriminate Hb.
Qed.

(** C1, amended. For the document
    [<pre class="language-python"><code>print(1)</code></pre>] the
    code blocks are two: first the block of the inner [code] element,
    without language and with tag [code], then the block of the [pre]
    element, with language [python] and tag [pre]. *)
Theorem pre_python_blocks (url : string) (code : Z) :
  ScrapedContent.code_blocks
    (extract url (Examples.response code Examples.pre_python)) =
  [CodeBlock.mk None "print(1)" "code";
   CodeBlock.mk (Some "python") "print(1)" "pre"].
Proof. vm_compute. reflexivity. Qed.

(** C4. For [<pre><code class="javascript">x</code></pre>] the [pre]
    carries no language token of its own, its language is the one read
    from the classes of its [code] child, [javascript], and the block of
    the [pre] with that language is among the code blocks of the result. *)
Theorem pre_code_javascript_fallback (url : string) (code : Z) :
  extract_code_language Examples.pre_code_js_pre = None
  /\ find_below Examples.pre_code_js_pre "code" = Some Examples.pre_code_js_code
  /\ determine_language Examples.pre_code_js_pre =
       extract_code_language Examples.pre_code_js_code
  /\ extract_code_language Examples.pre_code_js_code = Some "javascript"
  /\ CodeBlock.mk (Some "javascript") "x" "pre"
       ∈ ScrapedContent.code_blocks
           (extract url (Examples.response code Examples.pre_code_js)).
Proof.
  repeat split; try (vm_compute; reflexivity).
  apply list_elem_of_In. vm_compute. tauto.
Qed.

(* ===================================================================== *)
(** ** Headings *)
(* ===================================================================== *)

Section HeaderFacts.
Variable soup : list node.

Lemma header_tag_inj i j : header_tag i = header_tag j -> i = j.
Proof.
  unfold header_tag. intros H.
  assert (H' : NilEmpty.string_of_uint (Nat.to_uint i) =
               NilEmpty.string_of_uint (Nat.to_uint j)) by (injection H; auto).
  apply (f_equal NilEmpty.uint_of_string) in H'.
  rewrite !NilEmpty.usu in H'. injection H' as H'.
  apply (f_equal Nat.of_uint) in H'. rewrite !Unsigned.of_to in H'. exact H'.
Qed.

Lemma headers_step_other d i k :
  header_tag i <> k -> headers_step soup d i !! k = d !! k.
Proof.
  intros Hne. unfold headers_step.
  destruct (find_all soup (header_tag i)); [reflexivity|].
  apply lookup_insert_ne, Hne.
Qed.

Lemma headers_step_level d i :
  headers_step soup d i !! header_tag i =
  match find_all soup (header_tag i) with
  | [] => d !! header_tag i
  | es => Some (clean_texts es)
  end.
Proof.
  unfold headers_step.
  destruct (find_all soup (header_tag i)); [reflexivity|].
  apply lookup_insert_eq.
Qed.

Lemma headers_fold_other l d k :
  (forall i, i ∈ l -> header_tag i <> k) ->
  fold_left (headers_step soup) l d !! k = d !! k.
Proof.
  revert d. induction l as [|j l IH]; intros d H; [reflexivity|].
  cbn [fold_left]. rewrite IH by (intros i Hi; apply H; right; exact Hi).
  apply headers_step_other, H. left.
Qed.

Lemma headers_fold_level l d i :
  i ∈ l ->
  fold_left (headers_step soup) l d !! header_tag i =
  match find_all soup (header_tag i) with
  | [] => d !! header_tag i
  | es => Some (clean_texts es)
  end.
Proof.
  revert d. induction l as [|j l IH]; intros d Hi; [inversion Hi|].
  cbn [fold_left].
  destruct (decide (i ∈ l)) as [Hin|Hnin].
  - rewrite (IH _ Hin).
    destruct (find_all soup (header_tag i)) eqn:E; [|reflexivity].
    destruct (decide (j = i)) as [->|Hne].
    + rewrite headers_step_level, E. reflexivity.
    + apply headers_step_other. intros H. apply Hne, header_tag_inj, H.
  - apply elem_of_cons in Hi as [->|Hi]; [|contradiction].
    rewrite headers_fold_other.
    + apply headers_step_level.
    + intros i Hi H. apply header_tag_inj in H. subst i. contradiction.
Qed.

Lemma clean_texts_nonempty es t : t ∈ clean_texts es -> t <> EmptyString.
Proof.
  unfold clean_texts. intros H.
  apply list_elem_of_fmap in H as (e & -> & He).
  apply list_elem_of_In, filter_In in He as [_ He].
  apply truthy_true_iff, He.
Qed.

End HeaderFacts.

(** The mapping built for [<h1>  </h1>] binds a key to the empty
    sequence. *)
Lemma blank_h1_bound_to_empty :
  ~ (forall k v,
       ScrapedContent.headers
         (extract "http://example.com/"
                  (Examples.response 200 Examples.blank_h1)) !! k = Some v ->
       v <> []).
Proof.
  intros H. apply (H "h1" []); vm_compute; reflexivity.
Qed.

(** What the loop over the levels builds, as it is written: the test of
    line 77 is on the elements found, the list stored by line 78 is the
    filtered one.  A level is a key exactly when the document holds a
    heading element of that level, and is bound to the non-empty
    normalised texts of these elements; there are no other keys. *)
Theorem headers_keys (url : string) (response : Response.t) :
  let soup := Response.soup response in
  let headers := ScrapedContent.headers (extract url response) in
  (forall i, (1 <= i <= 6)%nat ->
     headers !! header_tag i =
     match find_all soup (header_tag i) with
     | [] => None
     | es => Some (clean_texts es)
     end)
  /\ (forall k v, headers !! k = Some v ->
        exists i, (1 <= i <= 6)%nat /\ k = header_tag i
                  /\ find_all soup k <> []
                  /\ v = clean_texts (find_all soup k)
                  /\ forall t, t ∈ v -> t <> EmptyString).
Proof.
  intros soup headers. subst headers. cbn [extract ScrapedContent.headers].
  fold soup. unfold extract_headers.
  assert (Hlv : forall i, (1 <= i <= 6)%nat ->
     fold_left (headers_step soup) (seq 1 6) ∅ !! header_tag i =
     match find_all soup (header_tag i) with
     | [] => None
     | es => Some (clean_texts es)
     end).
  { intros i Hi. rewrite headers_fold_level by (apply elem_of_seq; lia).
    destruct (find_all soup (header_tag i)); [apply lookup_empty|reflexivity]. }
  split; [exact Hlv|].
  intros k v Hk.
  destruct (decide (Exists (fun i => header_tag i = k) (seq 1 6)))
    as [(i & Hi & <-)%Exists_exists|Hno].
  - apply elem_of_seq in Hi. exists i. rewrite Hlv in Hk by lia.
    destruct (find_all soup (header_tag i)) eqn:E; [discriminate|].
    injection Hk as <-. repeat split; try lia; try discriminate.
    intros t. apply clean_texts_nonempty.
  - rewrite headers_fold_other, lookup_empty in Hk; [discriminate|].
    intros i Hi Heq. apply Hno, Exists_exists. exists i. auto.
Qed.

Lemma headers_keys_witness :
  let response := Examples.response 200 Examples.headings in
  let soup := Response.soup response in
  let headers :=
    ScrapedContent.headers (extract "http://example.com/" response) in
  ((1 <= 2 <= 6)%nat
   /\ headers !! header_tag 2 =
      match find_all soup (header_tag 2) with
      | [] => None
      | es => Some (clean_texts es)
      end)
  /\ (headers !! "h2" = Some ["Intro one"; "Two"]
      /\ exists i, (1 <= i <= 6)%nat /\ "h2" = header_tag i
                   /\ find_all soup "h2" <> []
                   /\ ["Intro one"; "Two"] = clean_texts (find_all soup "h2")
                   /\ forall t, t ∈ ["Intro one"; "Two"] -> t <> EmptyString).
Proof.
  intros response soup headers.
  assert (H1 : (1 <= 2 <= 6)%nat) by lia.
  assert (H2 : headers !! "h2" = Some ["Intro one"; "Two"])
    by (vm_compute; reflexivity).
  split.
  - split; [exact H1|].
    exact (proj1 (headers_keys "http://example.com/" response) 2%nat H1).
  - split; [exact H2|].
    exact (proj2 (headers_keys "http://example.com/" response) "h2" _ H2).
Defined.

(** C2. The invariant that no key of [headers] is bound to an empty
    sequence is broken by the code: the guard tests the heading elements
    found, not the texts kept, so a level all of whose heading elements
    have blank text, and that has at least one, is bound to the empty
    sequence. *)
Theorem blank_headings_bound_to_empty (url : string) (response : Response.t)
    (i : nat) :
  let soup := Response.soup response in
  (1 <= i <= 6)%nat ->
  find_all soup (header_tag i) <> [] ->
  (forall e, e ∈ find_all soup (header_tag i) ->
     Text.all_space (get_text (el_tag e)) = true) ->
  ScrapedContent.headers (extract url response) !! header_tag i = Some [].
Proof.
  intros soup Hi Hne Hblank.
  cbn [extract ScrapedContent.headers]. fold soup. unfold extract_headers.
  rewrite headers_fold_level by (apply elem_of_seq; lia).
  assert (Hnil : forall l : list element,
            (forall e, e ∈ l -> Text.all_space (get_text (el_tag e)) = true) ->
            clean_texts l = []).
  { intros l Hl. unfold clean_texts.
    induction l as [|x l IH]; [reflexivity|].
    cbn [List.filter].
    assert (Hx : clean_text (get_text (el_tag x)) = EmptyString)
      by (apply clean_text_empty_iff, Hl; left).
    rewrite Hx. cbn [Text.truthy]. apply IH.
    intros y Hy. apply Hl. right. exact Hy. }
  specialize (Hnil _ Hblank).
  destruct (find_all soup (header_tag i)) as [|e es]; [congruence|].
  rewrite Hnil. reflexivity.
Qed.

Lemma blank_headings_bound_to_empty_witness :
  let response := Examples.response 200 Examples.blank_h1 in
  let soup := Response.soup response in
  ((1 <= 1 <= 6)%nat
   /\ find_all soup (header_tag 1) <> []
   /\ (forall e, e ∈ find_all soup (header_tag 1) ->
         Text.all_space (get_text (el_tag e)) = true))
  /\ ScrapedContent.headers (extract "http://example.com/" response) !! "h1"
     = Some [].
Proof.
  intros response soup.
  assert (H1 : (1 <= 1 <= 6)%nat) by lia.
  assert (H2 : find_all soup (header_tag 1) <> []) by (vm_compute; discriminate).
  assert (H3 : forall e, e ∈ find_all soup (header_tag 1) ->
                 Text.all_space (get_text (el_tag e)) = true).
  { intros e He. apply list_elem_of_In in He. vm_compute in He.
    destruct He as [<-|[]]. reflexivity. }
  split; [auto|].
  exact (blank_headings_bound_to_empty "http://example.com/" response 1%nat
           H1 H2 H3).
Defined.

(* ===================================================================== *)
(** ** Title, meta description and paragraphs *)
(* ===================================================================== *)

Section FindFacts.
Context {A : Type}.

Lemma head_filter_first (f : A -> bool) (l before after : list A) (e : A) :
  l = before ++ e :: after -> f e = true ->
  (forall x, x ∈ before -> f x = false) ->
  head (List.filter f l) = Some e.
Proof.
  intros -> He. induction before as [|b before IH]; intros Hb; simpl.
  - rewrite He. reflexivity.
  - rewrite (Hb b) by left. apply IH. intros x Hx. apply Hb. right. exact Hx.
Qed.

Lemma head_filter_none (f : A -> bool) (l : list A) :
  (forall x, x ∈ l -> f x = false) -> head (List.filter f l) = None.
Proof.
  induction l as [|b l IH]; intros Hl; simpl; [reflexivity|].
  rewrite (Hl b) by left. apply IH. intros x Hx. apply Hl. right. exact Hx.
Qed.

Lemma map_filter_comm {B : Type} (g : A -> B) (p : B -> bool) (l : list A) :
  map g (List.filter (fun x => p (g x)) l) = List.filter p (map g l).
Proof.
  induction l as [|a l IH]; simpl; [reflexivity|].
  destruct (p (g a)); simpl; congruence.
Qed.

End FindFacts.

(** C6. When the document holds a [title] element, the title of the result
    is the normalisation (runs of white space collapsed, then trimmed) of
    the text of the first one, the empty string included when that text
    is blank; when it holds none, the title is absent. *)
Theorem title_rule (url : string) (response : Response.t) :
  let soup := Response.soup response in
  let title := ScrapedContent.title (extract url response) in
  (forall e, first_element_spec soup (is_named "title") e ->
     title = Some (normalize_spec (get_text (el_tag e)))
     /\ (Text.all_space (get_text (el_tag e)) = true -> title = Some ""))
  /\ (no_element_spec soup (is_named "title") -> title = None).
Proof.
  intros soup title. subst title. cbn [extract ScrapedContent.title]. fold soup.
  unfold extract_title, find, find_all. split.
  - intros e (before & after & Hd & He & Hb).
    rewrite (head_filter_first _ _ before after e Hd).
    + rewrite clean_text_normalize. split; [reflexivity|].
      intros Hs. rewrite <- clean_text_normalize.
      apply clean_text_empty_iff in Hs. rewrite Hs. reflexivity.
    + apply String.eqb_eq, He.
    + intros x Hx. apply String.eqb_neq, (Hb x Hx).
  - intros Hno. rewrite head_filter_none; [reflexivity|].
    intros x Hx. apply String.eqb_neq, (Hno x Hx).
Qed.


Lemma title_rule_witness :
  let response := Examples.response 200 Examples.page in
  let soup := Response.soup response in
  let title :=
    ScrapedContent.title (extract "http://example.com/" response) in
  let e := Element 2 ["head"; "html"] Examples.title_tag in
  (first_element_spec soup (is_named "title") e
   /\ title = Some (normalize_spec (get_text (el_tag e)))
   /\ normalize_spec (get_text (el_tag e)) = "a b")
  /\ (no_element_spec Examples.headings (is_named "title")
      /\ ScrapedContent.title
           (extract "http://example.com/"
                    (Examples.response 200 Examples.headings)) = None).
Proof.
  intros response soup title e.
  assert (H1 : first_element_spec soup (is_named "title") e).
  { exists (firstn 2 (descendants soup)), (skipn 3 (descendants soup)).
    split; [vm_compute; reflexivity|]. split; [reflexivity|].
    intros x Hx. apply list_elem_of_In in Hx. vm_compute in Hx.
    destruct Hx as [<-|[<-|[]]]; vm_compute; discriminate. }
  assert (H2 : no_element_spec Examples.headings (is_named "title")).
  { intros x Hx. apply list_elem_of_In in Hx. vm_compute in Hx.
    destruct Hx as [<-|[<-|[<-|[<-|[]]]]]; vm_compute; discriminate. }
  split.
  - split; [exact H1|]. split; [|vm_compute; reflexivity].
    exact (proj1 (proj1 (title_rule "http://example.com/" response) e H1)).
  - split; [exact H2|].
    exact (proj2 (title_rule "http://example.com/"
                    (Examples.response 200 Examples.headings)) H2).
Defined.

(** C7. The meta description of the result is the [content] attribute,
    as it stands, of the first [meta] element whose [name] attribute is
    [description]; it is absent when that element has no [content]
    attribute and when the document holds no such element. *)
Theorem meta_description_rule (url : string) (response : Response.t) :
  let soup := Response.soup response in
  let meta_description :=
    ScrapedContent.meta_description (extract url response) in
  (forall e, first_element_spec soup is_meta_description e ->
     meta_description = get_attr (el_tag e) "content")
  /\ (no_element_spec soup is_meta_description -> meta_description = None).
Proof.
  intros soup md. subst md. cbn [extract ScrapedContent.meta_description].
  fold soup. unfold extract_meta_description, find_attr.
  assert (Hdec : forall x, ~ is_meta_description x ->
            String.eqb (tag_name (el_tag x)) "meta"
            && bool_decide (get_attr (el_tag x) "name" = Some "description")
            = false).
  { intros x Hx. apply andb_false_iff.
    destruct (String.eqb_spec (tag_name (el_tag x)) "meta") as [Hn|Hn];
      [|left; reflexivity].
    right. apply bool_decide_eq_false. intros Ha. apply Hx. split; assumption. }
  split.
  - intros e (before & after & Hd & [Hn Ha] & Hb).
    rewrite (head_filter_first _ _ before after e Hd); [reflexivity| |].
    + apply andb_true_iff. split; [apply String.eqb_eq, Hn|].
      apply bool_decide_eq_true, Ha.
    + intros x Hx. apply Hdec, (Hb x Hx).
  - intros Hno. rewrite head_filter_none; [reflexivity|].
    intros x Hx. apply Hdec, (Hno x Hx).
Qed.


Lemma meta_description_rule_witness :
  let response := Examples.response 200 Examples.page in
  let soup := Response.soup response in
  let meta_description :=
    ScrapedContent.meta_description (extract "http://example.com/" response) in
  let e := Element 3 ["head"; "html"] Examples.meta_tag in
  (first_element_spec soup is_meta_description e
   /\ meta_description = get_attr (el_tag e) "content"
   /\ get_attr (el_tag e) "content" = Some " x  y ")
  /\ (no_element_spec Examples.headings is_meta_description
      /\ ScrapedContent.meta_description
           (extract "http://example.com/"
                    (Examples.response 200 Examples.headings)) = None).
Proof.
  intros response soup meta_description e.
  assert (H1 : first_element_spec soup is_meta_description e).
  { exists (firstn 3 (descendants soup)), (skipn 4 (descendants soup)).
    split; [vm_compute; reflexivity|]. split; [split; vm_compute; reflexivity|].
    intros x Hx [Hn _]. apply list_elem_of_In in Hx. vm_compute in Hx.
    destruct Hx as [<-|[<-|[<-|[]]]]; vm_compute in Hn; discriminate. }
  assert (H2 : no_element_spec Examples.headings is_meta_description).
  { intros x Hx [Hn _]. apply list_elem_of_In in Hx. vm_compute in Hx.
    destruct Hx as [<-|[<-|[<-|[<-|[]]]]]; vm_compute in Hn; discriminate. }
  split.
  - split; [exact H1|]. split; [|vm_compute; reflexivity].
    exact (proj1 (meta_description_rule "http://example.com/" response) e H1).
  - split; [exact H2|].
    exact (proj2 (meta_description_rule "http://example.com/"
                    (Examples.response 200 Examples.headings)) H2).
Defined.

(** C8. The paragraphs of the result are the normalised texts of the [p]
    elements of the document, in document order, without those that
    normalise to the empty text; a paragraph of white space only is among
    the dropped ones. *)
Theorem paragraphs_rule (url : string) (response : Response.t) :
  let soup := Response.soup response in
  let paragraphs := ScrapedContent.paragraphs (extract url response) in
  paragraphs =
    List.filter Text.truthy
      (map (fun p => normalize_spec (get_text (el_tag p)))
           (List.filter (fun e => String.eqb (tag_name (el_tag e)) "p")
                        (descendants soup)))
  /\ (forall t, t ∈ paragraphs -> t <> EmptyString)
  /\ (forall p, Text.all_space (get_text (el_tag p)) = true ->
        Text.truthy (normalize_spec (get_text (el_tag p))) = false).
Proof.
  intros soup paragraphs. subst paragraphs.
  cbn [extract ScrapedContent.paragraphs]. fold soup.
  unfold extract_paragraphs. split; [|split].
  - unfold clean_texts, find_all.
    rewrite (map_filter_comm (fun x => clean_text (get_text (el_tag x)))).
    f_equal. apply map_ext. intros a. apply clean_text_normalize.
  - intros t. apply clean_texts_nonempty.
  - intros p Hp. rewrite <- clean_text_normalize.
    apply clean_text_empty_iff in Hp. rewrite Hp. reflexivity.
Qed.

Lemma paragraphs_rule_witness :
  let response := Examples.response 200 Examples.page in
  let paragraphs :=
    ScrapedContent.paragraphs (extract "http://example.com/" response) in
  let blank := Element 6 ["body"; "html"] (Tag "p" [] ∅ [NavigableString "  "]) in
  paragraphs = ["one two"; "three"]
  /\ ("three" ∈ paragraphs /\ "three" <> EmptyString)
  /\ (Text.all_space (get_text (el_tag blank)) = true
      /\ Text.truthy (normalize_spec (get_text (el_tag blank))) = false).
Proof.
  intros response paragraphs blank.
  pose proof (paragraphs_rule "http://example.com/" response)
    as (Heq & Hne & Hblank).
  assert (H1 : "three" ∈ paragraphs)
    by (apply list_elem_of_In; vm_compute; tauto).
  assert (H2 : Text.all_space (get_text (el_tag blank)) = true) by reflexivity.
  split; [|split].
  - etransitivity; [exact Heq|]. vm_compute. reflexivity.
  - split; [exact H1 | exact (Hne "three" H1)].
  - split; [exact H2 | exact (Hblank blank H2)].
Defined.

(* ===================================================================== *)
(** ** Fetch failures and the status of a returned result *)
(* ===================================================================== *)

Lemma raise_for_status_iff (response : Response.t) :
  is_Some (raise_for_status response) <->
  400 <= Response.status_code response < 600.
Proof.
  unfold raise_for_status.
  destruct (Z.leb_spec 400 (Response.status_code response));
  destruct (Z.ltb_spec (Response.status_code response) 500);
  destruct (Z.leb_spec 500 (Response.status_code response));
  destruct (Z.ltb_spec (Response.status_code response) 600);
  cbn [andb]; split; intros Hx; try lia; try (eexists; reflexivity);
  destruct Hx as [? Hx]; discriminate Hx.
Qed.

Lemma scrape_website_returns (url : string)
    (got : RequestException + Response.t) (sc : ScrapedContent.t) :
  scrape_website url got = inr sc ->
  exists response,
    got = inr response /\ raise_for_status response = None
    /\ sc = extract url response.
Proof.
  unfold scrape_website. destruct got as [e|response]; [discriminate|].
  destruct (raise_for_status response) eqn:E; [discriminate|].
  intros [= <-]. exists response. auto.
Qed.

(** C9. When the fetch fails, by an exception of [requests.get] (a
    timeout, a connection or DNS failure) or by a response whose status
    [raise_for_status] rejects (400 to 599), [scrape_website] raises the
    error of status 400 whose detail is [Failed to fetch URL: ] followed
    by the text of the cause; so a timeout gives status 400 with the
    timeout's text, never 500, and no content is returned. *)
Theorem fetch_failure_is_400 (url : string)
    (got : RequestException + Response.t) :
  (forall e, fetch_error got = Some e ->
     scrape_website url got =
       inl (HTTPException.mk 400 ("Failed to fetch URL: " +:+ exc_str e))
     /\ (forall sc, scrape_website url got <> inr sc))
  /\ (forall e, got = inl e -> fetch_error got = Some e)
  /\ (forall msg, got = inl (Timeout msg) ->
        scrape_website url got =
          inl (HTTPException.mk 400 ("Failed to fetch URL: " +:+ msg)))
  /\ (forall response, got = inr response ->
        400 <= Response.status_code response < 600 ->
        exists msg, fetch_error got = Some (HTTPError msg)
                    /\ Text.startswith (Z_str (Response.status_code response))
                                       msg = true).
Proof.
  split; [|split; [|split]].
  - intros e He.
    assert (Hs : scrape_website url got =
                 inl (HTTPException.mk 400 ("Failed to fetch URL: " +:+ exc_str e))).
    { destruct got as [e'|response]; simpl in *.
      - injection He as ->. reflexivity.
      - rewrite He. reflexivity. }
    split; [exact Hs|]. intros sc. rewrite Hs. discriminate.
  - intros e ->. reflexivity.
  - intros msg ->. reflexivity.
  - intros response -> Hcode. cbn [fetch_error]. unfold raise_for_status.
    destruct (Z.leb_spec 400 (Response.status_code response)); [|lia].
    destruct (Z.ltb_spec (Response.status_code response) 500); cbn [andb].
    + eexists. split; [reflexivity|].
      apply startswith_iff. eexists. reflexivity.
    + destruct (Z.leb_spec 500 (Response.status_code response)); [|lia].
      destruct (Z.ltb_spec (Response.status_code response) 600); [|lia].
      cbn [andb]. eexists. split; [reflexivity|].
      apply startswith_iff. eexists. reflexivity.
Qed.

Lemma fetch_failure_is_400_witness :
  let url := "http://example.com/" in
  let timed_out : RequestException + Response.t :=
    inl (Timeout "Read timed out. (read timeout=10)") in
  let not_found : RequestException + Response.t :=
    inr (Examples.response 404 Examples.page) in
  (fetch_error timed_out = Some (Timeout "Read timed out. (read timeout=10)")
   /\ scrape_website url timed_out =
        inl (HTTPException.mk 400
               "Failed to fetch URL: Read timed out. (read timeout=10)"))
  /\ (400 <= 404 < 600
      /\ exists msg, fetch_error not_found = Some (HTTPError msg)
                     /\ Text.startswith "404" msg = true)
  /\ scrape_website url not_found =
       inl (HTTPException.mk 400
              "Failed to fetch URL: 404 Client Error: Reason for url: http://example.com/").
Proof.
  intros url timed_out not_found.
  assert (H1 : fetch_error timed_out =
               Some (Timeout "Read timed out. (read timeout=10)"))
    by reflexivity.
  assert (H2 : 400 <= 404 < 600) by lia.
  assert (H3 : fetch_error not_found =
               Some (HTTPError "404 Client Error: Reason for url: http://example.com/"))
    by (vm_compute; reflexivity).
  split; [|split].
  - split; [exact H1|].
    exact (proj1 (proj1 (fetch_failure_is_400 url timed_out) _ H1)).
  - split; [exact H2|].
    exact (proj2 (proj2 (proj2 (fetch_failure_is_400 url not_found)))
             (Examples.response 404 Examples.page) eq_refl H2).
  - exact (proj1 (proj1 (fetch_failure_is_400 url not_found) _ H3)).
Defined.

(** C10, as stated, fails: a response of status 999 passes
    [raise_for_status] and its status is returned. *)
Lemma status_999_is_returned :
  ~ (forall sc,
       scrape_website "http://example.com/"
         (inr (Examples.response 999 Examples.page)) = inr sc ->
       ScrapedContent.status_code sc < 400).
Proof.
  intros H.
  specialize (H (extract "http://example.com/"
                   (Examples.response 999 Examples.page)) eq_refl).
  vm_compute in H. discriminate H.
Qed.

(** C10, amended. The status of a returned content is the status of the
    response, and it never lies from 400 to 599: it is below 400 or at
    least 600, a response of status 4xx or 5xx being turned into the
    fetch error before the extraction. *)
Theorem returned_status_not_4xx_5xx (url : string)
    (got : RequestException + Response.t) (sc : ScrapedContent.t) :
  scrape_website url got = inr sc ->
  (exists response, got = inr response
     /\ ScrapedContent.status_code sc = Response.status_code response)
  /\ (ScrapedContent.status_code sc < 400 \/ 600 <= ScrapedContent.status_code sc).
Proof.
  intros H. apply scrape_website_returns in H as (response & -> & Hr & ->).
  cbn [extract ScrapedContent.status_code].
  split; [exists response; auto|].
  destruct (Z_lt_ge_dec (Response.status_code response) 400) as [?|?];
    [left; assumption|].
  destruct (Z_lt_ge_dec (Response.status_code response) 600) as [?|?];
    [|right; lia].
  assert (Hs : is_Some (raise_for_status response))
    by (apply raise_for_status_iff; lia).
  rewrite Hr in Hs. destruct Hs as [? Hs]. discriminate Hs.
Qed.

Lemma returned_status_not_4xx_5xx_witness :
  let url := "http://example.com/" in
  let got : RequestException + Response.t :=
    inr (Examples.response 200 Examples.page) in
  let sc := extract url (Examples.response 200 Examples.page) in
  scrape_website url got = inr sc
  /\ (exists response, got = inr response
        /\ ScrapedContent.status_code sc = Response.status_code response)
  /\ (ScrapedContent.status_code sc < 400 \/ 600 <= ScrapedContent.status_code sc).
Proof.
  intros url got sc.
  assert (H : scrape_website url got = inr sc) by reflexivity.
  split; [exact H|].
  exact (returned_status_not_4xx_5xx url got sc H).
Defined.

(* ===================================================================== *)
(** ** More on [clean_text] *)
(* ===================================================================== *)

Section CleanTextShape.
Import Text.

Lemma clean_text_eq text : clean_text text = re_sub_ws (strip text).
Proof. destruct text; reflexivity. Qed.

Lemma rstrip_closed_tail c s :
  rstrip (String c s) = String c s ->
  rstrip s = s /\ (isspace c = true -> truthy s = true).
Proof.
  rewrite rstrip_cons. destruct (truthy (rstrip s)) eqn:Et.
  - intros [= H]. split; [exact H|]. intros _. rewrite <- H. exact Et.
  - apply truthy_false in Et. destruct (isspace c).
    + discriminate.
    + intros [= <-]. split; [exact Et|discriminate].
Qed.

Lemma rstrip_idem s : rstrip (rstrip s) = rstrip s.
Proof.
  induction s as [|c s IH]; [reflexivity|].
  rewrite rstrip_cons. destruct (truthy (rstrip s)) eqn:Et.
  - rewrite rstrip_cons, IH, Et. reflexivity.
  - destruct (isspace c) eqn:Ec; [reflexivity|].
    simpl. rewrite Ec. reflexivity.
Qed.

Lemma rstrip_lstrip_closed s : rstrip s = s -> rstrip (lstrip s) = lstrip s.
Proof.
  induction s as [|c s IH]; [reflexivity|].
  intros H. simpl lstrip. destruct (isspace c); [|exact H].
  apply IH. apply (rstrip_closed_tail c s H).
Qed.

Lemma lstrip_starts_clean s : starts_clean (lstrip s) = true.
Proof.
  induction s as [|c s IH]; [reflexivity|].
  simpl. destruct (isspace c) eqn:Ec; [exact IH|]. simpl. rewrite Ec. reflexivity.
Qed.

Lemma lstrip_idem s : lstrip (lstrip s) = lstrip s.
Proof.
  induction s as [|c s IH]; [reflexivity|].
  simpl. destruct (isspace c) eqn:Ec; [exact IH|]. simpl. rewrite Ec. reflexivity.
Qed.

Lemma strip_closed s : rstrip (strip s) = strip s /\ starts_clean (strip s) = true.
Proof.
  unfold strip. split; [|apply lstrip_starts_clean].
  apply rstrip_lstrip_closed, rstrip_idem.
Qed.

Lemma sub_ws_true_starts_clean s : starts_clean (sub_ws true s) = true.
Proof.
  induction s as [|c s IH]; [reflexivity|].
  simpl. destruct (isspace c) eqn:Ec; [exact IH|]. simpl. rewrite Ec. reflexivity.
Qed.

Lemma sub_ws_starts_clean s :
  starts_clean s = true -> starts_clean (sub_ws false s) = true.
Proof.
  destruct s as [|c s]; [reflexivity|]. simpl.
  destruct (isspace c) eqn:Ec; [discriminate|]. simpl. rewrite Ec. reflexivity.
Qed.

Lemma sub_ws_single_spaced b s :
  rstrip s = s -> single_spaced (sub_ws b s) = true.
Proof.
  revert b. induction s as [|c s IH]; intros b H; [reflexivity|].
  destruct (rstrip_closed_tail c s H) as [Hs Hc].
  simpl. destruct (isspace c) eqn:Ec.
  - destruct b; [apply IH, Hs|].
    cbn [single_spaced]. rewrite (IH true Hs), sub_ws_true_starts_clean.
    assert (Ht : truthy (sub_ws true s) = true).
    { rewrite <- Hs. apply sub_ws_rstrip_truthy. rewrite Hs. apply Hc.
      reflexivity. }
    rewrite Ht. reflexivity.
  - cbn [single_spaced]. rewrite Ec, (IH false Hs). reflexivity.
Qed.

Lemma single_spaced_rstrip s : single_spaced s = true -> rstrip s = s.
Proof.
  induction s as [|c s IH]; [reflexivity|].
  cbn [single_spaced]. rewrite andb_true_iff. intros [Hc Hs].
  rewrite rstrip_cons, (IH Hs). destruct s as [|d s]; [|reflexivity].
  simpl. destruct (isspace c); [|reflexivity].
  rewrite andb_false_r in Hc. discriminate.
Qed.

Lemma starts_clean_lstrip s : starts_clean s = true -> lstrip s = s.
Proof.
  destruct s as [|c s]; [reflexivity|]. simpl.
  destruct (isspace c); [discriminate|reflexivity].
Qed.

Lemma starts_clean_sub_ws s :
  starts_clean s = true -> sub_ws true s = sub_ws false s.
Proof.
  destruct s as [|c s]; [reflexivity|]. simpl.
  destruct (isspace c); [discriminate|reflexivity].
Qed.

Lemma single_spaced_sub_ws s : single_spaced s = true -> sub_ws false s = s.
Proof.
  induction s as [|c s IH]; [reflexivity|].
  cbn [single_spaced]. rewrite andb_true_iff. intros [Hc Hs].
  simpl. destruct (isspace c).
  - rewrite !andb_true_iff in Hc. destruct Hc as [[Hc _] Hst].
    apply Ascii.eqb_eq in Hc. subst c.
    rewrite (starts_clean_sub_ws s Hst), (IH Hs). reflexivity.
  - rewrite (IH Hs). reflexivity.
Qed.

Lemma drop_spaces_lstrip s : drop_spaces (lstrip s) = drop_spaces s.
Proof.
  induction s as [|c s IH]; [reflexivity|].
  simpl. destruct (isspace c) eqn:Ec; [exact IH|]. simpl. rewrite Ec. reflexivity.
Qed.

Lemma drop_spaces_rstrip s : drop_spaces (rstrip s) = drop_spaces s.
Proof.
  induction s as [|c s IH]; [reflexivity|].
  rewrite rstrip_cons. destruct (truthy (rstrip s)) eqn:Et.
  - simpl. rewrite IH. reflexivity.
  - apply truthy_false in Et. rewrite Et in IH. simpl in IH.
    simpl. destruct (isspace c) eqn:Ec; simpl; rewrite ?Ec, <- IH; reflexivity.
Qed.

Lemma drop_spaces_sub_ws b s : drop_spaces (sub_ws b s) = drop_spaces s.
Proof.
  revert b. induction s as [|c s IH]; intros b; [reflexivity|].
  simpl. destruct (isspace c) eqn:Ec.
  - destruct b; simpl; apply IH.
  - simpl. rewrite Ec, IH. reflexivity.
Qed.

Lemma length_lstrip s : (String.length (lstrip s) <= String.length s)%nat.
Proof.
  induction s as [|c s IH]; [reflexivity|].
  simpl. destruct (isspace c); simpl; lia.
Qed.

Lemma length_rstrip s : (String.length (rstrip s) <= String.length s)%nat.
Proof.
  induction s as [|c s IH]; [reflexivity|].
  rewrite rstrip_cons. destruct (truthy (rstrip s)); [simpl; lia|].
  destruct (isspace c); simpl; lia.
Qed.

Lemma length_sub_ws b s : (String.length (sub_ws b s) <= String.length s)%nat.
Proof.
  revert b. induction s as [|c s IH]; intros b; [reflexivity|].
  simpl. destruct (isspace c).
  - destruct b; simpl; [specialize (IH true)|specialize (IH true)]; lia.
  - simpl. specialize (IH false). lia.
Qed.

Lemma strip_app_space ws1 s ws2 :
  all_space ws1 = true -> all_space ws2 = true ->
  strip (ws1 +:+ (s +:+ ws2)) = strip s.
Proof.
  intros H1 H2. unfold strip.
  induction ws1 as [|c ws1 IH].
  - change (EmptyString +:+ (s +:+ ws2)) with (s +:+ ws2).
    rewrite rstrip_app_space by exact H2. reflexivity.
  - simpl in H1. apply andb_true_iff in H1 as [Hc H1].
    change (String c ws1 +:+ (s +:+ ws2)) with (String c (ws1 +:+ (s +:+ ws2))).
    rewrite rstrip_cons.
    destruct (truthy (rstrip (ws1 +:+ (s +:+ ws2)))) eqn:Et.
    + simpl. rewrite Hc. apply IH, H1.
    + rewrite Hc. apply truthy_false in Et. rewrite <- (IH H1), Et. reflexivity.
Qed.

Lemma clean_text_normal text : normal_form (clean_text text) = true.
Proof.
  rewrite clean_text_eq. unfold normal_form, re_sub_ws.
  destruct (strip_closed text) as [Hr Hl].
  rewrite (sub_ws_starts_clean _ Hl), (sub_ws_single_spaced false _ Hr).
  reflexivity.
Qed.

End CleanTextShape.

(** X1. The result of [clean_text] is in normal form: it neither starts
    nor ends with white space, and its only white-space characters are
    single spaces between two other characters. *)
Theorem clean_text_normal_form (text : string) :
  normal_form (clean_text text) = true.
Proof. apply clean_text_normal. Qed.

(** X2. The texts [clean_text] leaves unchanged are exactly the texts in
    normal form; in particular cleaning twice is cleaning once. *)
Theorem clean_text_fixed_points (text : string) :
  (clean_text text = text <-> normal_form text = true)
  /\ clean_text (clean_text text) = clean_text text.
Proof.
  assert (Hfix : forall s, normal_form s = true -> clean_text s = s).
  { intros s H. unfold normal_form in H. apply andb_true_iff in H as [H1 H2].
    rewrite clean_text_eq. unfold Text.re_sub_ws, Text.strip.
    rewrite (single_spaced_rstrip s H2), (starts_clean_lstrip s H1).
    apply single_spaced_sub_ws, H2. }
  split; [split|].
  - intros H. rewrite <- H. apply clean_text_normal.
  - apply Hfix.
  - apply Hfix, clean_text_normal.
Qed.

Lemma clean_text_fixed_points_witness :
  normal_form "a b" = true /\ clean_text "a b" = "a b".
Proof.
  assert (H : normal_form "a b" = true) by reflexivity.
  split; [exact H|].
  exact (proj2 (proj1 (clean_text_fixed_points "a b")) H).
Defined.

(** X3. [clean_text] touches white space only: the characters that are
    not white space come out unchanged and in the same order, and the
    result is never longer than the text. *)
Theorem clean_text_keeps_characters (text : string) :
  drop_spaces (clean_text text) = drop_spaces text
  /\ (String.length (clean_text text) <= String.length text)%nat.
Proof.
  rewrite clean_text_eq. unfold Text.re_sub_ws, Text.strip. split.
  - rewrite drop_spaces_sub_ws, drop_spaces_lstrip, drop_spaces_rstrip.
    reflexivity.
  - pose proof (length_sub_ws false (Text.lstrip (Text.rstrip text))).
    pose proof (length_lstrip (Text.rstrip text)).
    pose proof (length_rstrip text). lia.
Qed.

(** X4. White space around a text does not change its cleaning. *)
Theorem clean_text_ignores_margins (ws1 text ws2 : string) :
  Text.all_space ws1 = true -> Text.all_space ws2 = true ->
  clean_text (ws1 +:+ (text +:+ ws2)) = clean_text text.
Proof.
  intros H1 H2. rewrite !clean_text_eq, (strip_app_space _ _ _ H1 H2).
  reflexivity.
Qed.

Lemma clean_text_ignores_margins_witness :
  let ws1 := String "010" "  " in
  let ws2 := String "009" " " in
  (Text.all_space ws1 = true /\ Text.all_space ws2 = true)
  /\ clean_text (ws1 +:+ ("a  b" +:+ ws2)) = clean_text "a  b".
Proof.
  intros ws1 ws2.
  assert (H1 : Text.all_space ws1 = true) by reflexivity.
  assert (H2 : Text.all_space ws2 = true) by reflexivity.
  split; [split; assumption|].
  exact (clean_text_ignores_margins ws1 "a  b" ws2 H1 H2).
Defined.

(* ===================================================================== *)
(** ** More on the language recognition *)
(* ===================================================================== *)

Section LanguageSound.
Import Text.

Lemma split1_inv sep s r :
  split1 sep s !! 1%nat = Some r ->
  exists a, s = a +:+ String sep r /\ occurs sep a = false.
Proof.
  revert r. induction s as [|c s IH]; intros r; simpl; [discriminate|].
  destruct (Ascii.eqb_spec c sep) as [->|Hne].
  - intros [= <-]. exists EmptyString. split; reflexivity.
  - destruct (split1 sep s) as [|h t] eqn:E; [discriminate|].
    intros H. destruct (IH r H) as (a & -> & Ha).
    exists (String c a). split; [reflexivity|].
    simpl. rewrite Ha. apply Ascii.eqb_neq in Hne. rewrite Hne. reflexivity.
Qed.

Lemma language_of_classes_sound classes :
  match language_of_classes classes with
  | Some r =>
      exists before cls after,
        classes = before ++ cls :: after
        /\ (forall c, c ∈ before -> ~ recognized_spec c)
        /\ class_yields_spec cls r
  | None => forall c, c ∈ classes -> ~ recognized_spec c
  end.
Proof.
  induction classes as [|cls rest IH]; [intros c Hc; inversion Hc|].
  cbn [language_of_classes].
  destruct (startswith_any language_prefixes cls) eqn:Ep.
  - destruct (split1_defined cls Ep) as [r Hr]. rewrite Hr.
    exists [], cls, rest. split; [reflexivity|].
    split; [intros c Hc; inversion Hc|].
    left. split; [apply startswith_any_iff, Ep|].
    destruct (split1_inv _ _ _ Hr) as (a & Ha & Hocc). exists a. auto.
  - assert (Hnp : ~ has_language_prefix_spec cls).
    { rewrite <- startswith_any_iff, Ep. discriminate. }
    case_bool_decide as Hk.
    + exists [], cls, rest. split; [reflexivity|].
      split; [intros c Hc; inversion Hc|]. right. auto.
    + assert (Hnr : ~ recognized_spec cls) by (intros [?|?]; auto).
      destruct (language_of_classes rest) as [r|].
      * destruct IH as (before & c & after & -> & Hb & Hy).
        exists (cls :: before), c, after. split; [reflexivity|].
        split; [|exact Hy].
        intros x [->|Hx]%elem_of_cons; auto.
      * intros x [->|Hx]%elem_of_cons; auto.
Qed.

End LanguageSound.

(** X5. A language is returned only when a class matches: a result [r]
    comes from the first class, in list order, that matches a rule, and
    is what that class yields; an absent result means that no class of
    the element matches. *)
Theorem extract_code_language_sound (element : node) :
  (forall r, extract_code_language element = Some r ->
     exists before cls after,
       get_class element = before ++ cls :: after
       /\ (forall c, c ∈ before -> ~ recognized_spec c)
       /\ class_yields_spec cls r)
  /\ (extract_code_language element = None ->
      forall c, c ∈ get_class element -> ~ recognized_spec c).
Proof.
  unfold extract_code_language.
  pose proof (language_of_classes_sound (get_class element)) as H.
  split.
  - intros r Hr. rewrite Hr in H. exact H.
  - intros Hn. rewrite Hn in H. exact H.
Qed.

Lemma extract_code_language_sound_witness :
  let element := Tag "code" ["foo"; "highlight-c-sharp"; "python"] ∅ [] in
  extract_code_language element = Some "c-sharp"
  /\ exists before cls after,
       get_class element = before ++ cls :: after
       /\ (forall c, c ∈ before -> ~ recognized_spec c)
       /\ class_yields_spec cls "c-sharp".
Proof.
  intros element.
  assert (H : extract_code_language element = Some "c-sharp") by reflexivity.
  split; [exact H|].
  exact (proj1 (extract_code_language_sound element) "c-sharp" H).
Defined.

(* ===================================================================== *)
(** ** The code blocks, selector by selector *)
(* ===================================================================== *)

Section ClosedForm.
Variable soup : list node.

Lemma descendants_ids_NoDup : NoDup (map el_id (descendants soup)).
Proof.
  apply NoDup_alt. intros i j x Hi Hj.
  change (map el_id (descendants soup)) with (el_id <$> descendants soup) in *.
  rewrite list_lookup_fmap in Hi, Hj.
  destruct (descendants soup !! i) as [e1|] eqn:E1; [|discriminate].
  destruct (descendants soup !! j) as [e2|] eqn:E2; [|discriminate].
  injection Hi as Hi. injection Hj as Hj.
  apply descendants_lookup in E1, E2. congruence.
Qed.

Lemma NoDup_map_filter {A B : Type} (g : A -> B) (f : A -> bool) (l : list A) :
  NoDup (map g l) -> NoDup (map g (List.filter f l)).
Proof.
  induction l as [|a l IH]; simpl; [auto|].
  rewrite NoDup_cons. intros [Ha Hl].
  destruct (f a); [|auto]. simpl. apply NoDup_cons. split; [|auto].
  intros Hin. apply Ha.
  apply list_elem_of_fmap in Hin as (x & -> & Hx).
  apply list_elem_of_fmap. exists x. split; [reflexivity|].
  apply list_elem_of_In. apply list_elem_of_In, filter_In in Hx. tauto.
Qed.

Lemma filter_agree {A : Type} (f g : A -> bool) (l : list A) :
  (forall x, x ∈ l -> f x = g x) -> List.filter f l = List.filter g l.
Proof.
  induction l as [|a l IH]; intros H; simpl; [reflexivity|].
  rewrite (H a) by left. rewrite IH; [reflexivity|].
  intros x Hx. apply H. right. exact Hx.
Qed.

Lemma filter_twice {A : Type} (f g : A -> bool) (l : list A) :
  List.filter f (List.filter g l) = List.filter (fun x => g x && f x) l.
Proof.
  induction l as [|a l IH]; simpl; [reflexivity|].
  destruct (g a); simpl; [destruct (f a)|]; congruence.
Qed.

(** The inner loop over elements of distinct identities. *)
Lemma fold_traced_closed l P T :
  NoDup (map el_id l) ->
  snd (fold_left process_element_traced l (P, T)) =
    T ++ map entry_of
           (List.filter (fun e => negb (bool_decide (el_id e ∈ P)) && nonblank e) l)
  /\ (forall i, i ∈ fst (fold_left process_element_traced l (P, T)) <->
                i ∈ P \/ i ∈ map el_id l).
Proof.
  revert P T. induction l as [|e l IH]; intros P T Hnd.
  - simpl. rewrite app_nil_r. split; [reflexivity|].
    intros i. split; [auto|]. intros [?|Hi]; [assumption|inversion Hi].
  - cbn [map] in Hnd. apply NoDup_cons in Hnd as [He Hnd].
    cbn [fold_left]. unfold process_element_traced at 2 4.
    cbn [List.filter map]. case_bool_decide as Hin; cbn [negb andb].
    + destruct (IH P T Hnd) as [Hs Hp]. split; [exact Hs|].
      intros i. rewrite Hp, elem_of_cons.
      split; [tauto|]. intros [?|[->|?]]; auto.
    + assert (Hext :
        List.filter (fun x => negb (bool_decide (el_id x ∈ {[el_id e]} ∪ P))
                              && nonblank x) l =
        List.filter (fun x => negb (bool_decide (el_id x ∈ P)) && nonblank x) l).
      { apply filter_agree. intros x Hx. f_equal. f_equal.
        apply bool_decide_ext. rewrite elem_of_union, elem_of_singleton.
        split; [|auto]. intros [Heq|?]; [|assumption].
        exfalso. apply He. rewrite <- Heq.
        apply list_elem_of_fmap. exists x. auto. }
      fold (nonblank e).
      destruct (nonblank e) eqn:Enb; cbn [negb].
      * destruct (IH ({[el_id e]} ∪ P) (T ++ [(el_id e, code_block_of (el_tag e))]) Hnd)
          as [Hs Hp].
        split.
        -- rewrite Hs, Hext, <- app_assoc. reflexivity.
        -- intros i. rewrite Hp, elem_of_union, elem_of_singleton, elem_of_cons.
           tauto.
      * destruct (IH ({[el_id e]} ∪ P) T Hnd) as [Hs Hp].
        split.
        -- rewrite Hs, Hext. reflexivity.
        -- intros i. rewrite Hp, elem_of_union, elem_of_singleton, elem_of_cons.
           tauto.
Qed.

Lemma matches_any_snoc earlier sel e :
  matches_any (earlier ++ [sel]) e =
  matches_any earlier e || selector_matches sel e.
Proof.
  unfold matches_any. rewrite existsb_app. simpl. rewrite orb_false_r.
  reflexivity.
Qed.

(** The outer loop, when the processed identities are those of the
    elements some earlier selector matches. *)
Lemma selectors_traced_closed sels earlier P T :
  (forall e, e ∈ descendants soup ->
     el_id e ∈ P <-> matches_any earlier e = true) ->
  snd (fold_left (process_selector_traced soup) sels (P, T)) =
    T ++ blocks_by_priority soup earlier sels.
Proof.
  revert earlier P T. induction sels as [|sel sels IH]; intros earlier P T HP.
  - simpl. rewrite app_nil_r. reflexivity.
  - cbn [fold_left blocks_by_priority].
    unfold process_selector_traced at 2.
    assert (Hnd : NoDup (map el_id (select soup sel)))
      by apply NoDup_map_filter, descendants_ids_NoDup.
    destruct (fold_traced_closed (select soup sel) P T Hnd) as [Hs Hp].
    destruct (fold_left process_element_traced (select soup sel) (P, T))
      as [P' T'] eqn:E. cbn [fst snd] in Hs, Hp.
    rewrite (IH (earlier ++ [sel]) P' T').
    + rewrite Hs, <- app_assoc. f_equal. f_equal. f_equal.
      unfold select. rewrite filter_twice. apply filter_agree.
      intros x Hx. rewrite <- andb_assoc. f_equal. f_equal. f_equal.
      destruct (matches_any earlier x) eqn:Em.
      * apply bool_decide_eq_true, (HP x Hx), Em.
      * apply bool_decide_eq_false. intros Hin. apply (HP x Hx) in Hin.
        congruence.
    + intros e He. rewrite Hp, matches_any_snoc, orb_true_iff, (HP e He).
      split; (intros [?|Hm]; [left; assumption|right]).
      * apply list_elem_of_fmap in Hm as (x & Hid & Hx).
        apply select_iff in Hx as [Hx Hm].
        rewrite (descendants_id_inj soup e x He Hx Hid). exact Hm.
      * apply list_elem_of_fmap. exists e. split; [reflexivity|].
        apply select_iff. auto.
Qed.

Lemma blocks_by_priority_iff sels earlier x :
  x ∈ blocks_by_priority soup earlier sels <->
  exists e, e ∈ descendants soup /\ x = entry_of e
            /\ matches_any sels e = true /\ matches_any earlier e = false
            /\ nonblank e = true.
Proof.
  revert earlier. induction sels as [|sel sels IH]; intros earlier.
  - simpl. split; [intros H; inversion H|].
    intros (e & _ & _ & H & _). discriminate.
  - cbn [blocks_by_priority]. rewrite elem_of_app, IH, list_elem_of_fmap.
    split.
    + intros [(e & -> & He)|(e & He & -> & Hm & Hn & Hb)].
      * apply list_elem_of_In, filter_In in He as [He Hc].
        rewrite !andb_true_iff, negb_true_iff in Hc.
        destruct Hc as [[Hm Hn] Hb].
        exists e. rewrite <- list_elem_of_In in He. simpl. rewrite Hm. auto.
      * rewrite matches_any_snoc, orb_false_iff in Hn. destruct Hn as [Hn Hs].
        exists e. simpl. rewrite Hs. auto.
    + intros (e & He & -> & Hm & Hn & Hb). simpl in Hm.
      destruct (selector_matches sel e) eqn:Es.
      * left. exists e. split; [reflexivity|].
        apply list_elem_of_In, filter_In. rewrite <- list_elem_of_In.
        split; [exact He|]. rewrite Es, Hn, Hb. reflexivity.
      * right. exists e. rewrite matches_any_snoc, Hn, Es. auto.
Qed.

Lemma code_blocks_traced_closed :
  code_blocks_traced soup = blocks_by_priority soup [] code_selectors.
Proof.
  unfold code_blocks_traced.
  rewrite (selectors_traced_closed code_selectors [] ∅ []); [reflexivity|].
  intros e _. split; [intros H; apply not_elem_of_empty in H; contradiction|].
  discriminate.
Qed.

Lemma code_blocks_traced_iff i b :
  (i, b) ∈ code_blocks_traced soup <->
  exists e, e ∈ descendants soup /\ el_id e = i
            /\ b = code_block_of (el_tag e)
            /\ matches_any code_selectors e = true
            /\ nonblank e = true.
Proof.
  rewrite code_blocks_traced_closed, blocks_by_priority_iff.
  split.
  - intros (e & He & [= -> ->] & Hm & _ & Hb). exists e. auto.
  - intros (e & He & <- & -> & Hm & Hb). exists e. auto.
Qed.

Lemma code_blocks_iff b :
  b ∈ extract_code_blocks soup <->
  exists e, e ∈ descendants soup /\ b = code_block_of (el_tag e)
            /\ matches_any code_selectors e = true /\ nonblank e = true.
Proof.
  rewrite <- code_blocks_erase.
  change (map snd (code_blocks_traced soup))
    with (snd <$> code_blocks_traced soup).
  rewrite list_elem_of_fmap. split.
  - intros ([i b'] & -> & H). apply code_blocks_traced_iff in H.
    destruct H as (e & He & _ & Hb & Hm & Hn). exists e. auto.
  - intros (e & He & -> & Hm & Hn). exists (entry_of e). split; [reflexivity|].
    apply code_blocks_traced_iff. exists e. auto.
Qed.

End ClosedForm.

(** X6. The code blocks in closed form: selector by selector in the order
    of [code_selectors], and for each selector in document order, the
    blocks of the elements with non-blank text that the selector matches
    and no earlier selector does. *)
Theorem code_blocks_by_priority (soup : list node) :
  extract_code_blocks soup =
    map snd (blocks_by_priority soup [] code_selectors)
  /\ code_blocks_traced soup = blocks_by_priority soup [] code_selectors.
Proof.
  split; [|apply code_blocks_traced_closed].
  rewrite <- code_blocks_erase, code_blocks_traced_closed. reflexivity.
Qed.

(** X7. Which elements give a block: an element of the document has its
    block recorded exactly when some selector matches it and its text is
    not blank; unmatched elements and blank ones never give a block, and
    the number of blocks is the number of such elements. *)
Theorem code_blocks_membership (soup : list node) :
  (forall i b, (i, b) ∈ code_blocks_traced soup <->
     exists e, e ∈ descendants soup /\ el_id e = i
               /\ b = code_block_of (el_tag e)
               /\ matches_any code_selectors e = true
               /\ nonblank e = true)
  /\ length (extract_code_blocks soup) =
       length (List.filter
                 (fun e => matches_any code_selectors e && nonblank e)
                 (descendants soup)).
Proof.
  pose proof (code_blocks_traced_iff soup) as Hiff.
  split; [exact Hiff|].
  rewrite <- code_blocks_erase, length_map.
  rewrite <- (length_map entry_of (List.filter _ _)).
  apply Permutation_length, NoDup_Permutation.
  - pose proof (selectors_traced_inv soup code_selectors _ (trace_inv_init soup))
      as (Hnd & _).
    fold (code_blocks_traced soup) in Hnd.
    apply (NoDup_fmap_1 fst). exact Hnd.
  - apply (NoDup_fmap_1 fst).
    change (fst <$> map entry_of ?l) with (map fst (map entry_of l)).
    rewrite map_map. apply NoDup_map_filter, descendants_ids_NoDup.
  - intros [i b]. rewrite Hiff. split.
    + intros (e & He & <- & -> & Hm & Hb). apply list_elem_of_fmap.
      exists e. split; [reflexivity|].
      apply list_elem_of_In, filter_In. rewrite <- list_elem_of_In.
      rewrite Hm, Hb. auto.
    + intros (e & Heq & He)%list_elem_of_fmap.
      apply list_elem_of_In, filter_In in He as [He Hc].
      rewrite <- list_elem_of_In in He. apply andb_true_iff in Hc as [Hm Hb].
      injection Heq as -> ->. exists e. auto.
Qed.

Lemma code_blocks_membership_witness :
  let soup := Examples.pre_python in
  let e := Element 1 ["pre"] (Tag "code" [] ∅ [NavigableString "print(1)"]) in
  (exists x, x ∈ descendants soup /\ el_id x = 1%nat
             /\ CodeBlock.mk None "print(1)" "code" = code_block_of (el_tag x)
             /\ matches_any code_selectors x = true
             /\ nonblank x = true)
  /\ (1%nat, CodeBlock.mk None "print(1)" "code") ∈ code_blocks_traced soup.
Proof.
  intros soup e.
  assert (H : exists x, x ∈ descendants soup /\ el_id x = 1%nat
             /\ CodeBlock.mk None "print(1)" "code" = code_block_of (el_tag x)
             /\ matches_any code_selectors x = true
             /\ nonblank x = true).
  { exists e. split; [apply list_elem_of_In; vm_compute; tauto|].
    repeat split. }
  split; [exact H|].
  exact (proj2 (proj1 (code_blocks_membership soup) _ _) H).
Defined.

Section BlockFacts.
Import Text.

Lemma strip_idem s : strip (strip s) = strip s.
Proof.
  destruct (strip_closed s) as [Hr _].
  unfold strip at 1. rewrite Hr. unfold strip. apply lstrip_idem.
Qed.

Lemma startswith_app sub s b :
  startswith sub s = true -> startswith sub (s +:+ b) = true.
Proof.
  revert s. induction sub as [|a sub IH]; intros s; [reflexivity|].
  destruct s as [|c s]; [discriminate|].
  rewrite append_cons. simpl. destruct (Ascii.eqb a c); [apply IH|discriminate].
Qed.

Lemma startswith_empty sub : startswith sub EmptyString = true -> sub = EmptyString.
Proof. destruct sub; [reflexivity|discriminate]. Qed.

Lemma contains_app_r sub s b :
  contains sub s = true -> contains sub (s +:+ b) = true.
Proof.
  induction s as [|c s IH].
  - simpl. rewrite orb_false_r. intros H. apply startswith_empty in H.
    subst sub. destruct (EmptyString +:+ b); reflexivity.
  - rewrite append_cons. cbn [contains]. rewrite !orb_true_iff.
    intros [H|H]; [left|right; apply IH, H].
    rewrite <- append_cons. apply startswith_app, H.
Qed.

Lemma contains_app_l sub a s :
  contains sub s = true -> contains sub (a +:+ s) = true.
Proof.
  intros H. induction a as [|c a IH]; [exact H|].
  rewrite append_cons. cbn [contains]. rewrite IH. apply orb_true_r.
Qed.

Lemma contains_join sub cls classes :
  cls ∈ classes -> contains sub cls = true ->
  contains sub (join_sp classes) = true.
Proof.
  intros Hin Hc. induction classes as [|x rest IH]; [inversion Hin|].
  apply elem_of_cons in Hin as [<-|Hin].
  - destruct rest; [exact Hc|]. cbn [join_sp]. apply contains_app_r, Hc.
  - specialize (IH Hin). destruct rest as [|y rest]; [inversion Hin|].
    cbn [join_sp]. apply contains_app_l, contains_app_l, IH.
Qed.

End BlockFacts.

(** X8. Every code block has a content that is not empty and carries no
    white space at either end, and its tag is the name of an element of
    the document that some selector matches. *)
Theorem code_block_content_trimmed (soup : list node) (b : CodeBlock.t) :
  b ∈ extract_code_blocks soup ->
  CodeBlock.content b <> EmptyString
  /\ Text.strip (CodeBlock.content b) = CodeBlock.content b
  /\ exists e, e ∈ descendants soup
               /\ matches_any code_selectors e = true
               /\ CodeBlock.tag b = tag_name (el_tag e)
               /\ CodeBlock.content b = Text.strip (get_text (el_tag e)).
Proof.
  intros (e & He & -> & Hm & Hn)%code_blocks_iff.
  cbn [code_block_of CodeBlock.content CodeBlock.tag].
  split; [apply truthy_true_iff, Hn|].
  split; [apply strip_idem|]. exists e. auto.
Qed.

Lemma code_block_content_trimmed_witness :
  let b := CodeBlock.mk (Some "python") "print(1)" "pre" in
  b ∈ extract_code_blocks Examples.pre_python
  /\ CodeBlock.content b <> EmptyString
  /\ Text.strip (CodeBlock.content b) = CodeBlock.content b
  /\ exists e, e ∈ descendants Examples.pre_python
               /\ matches_any code_selectors e = true
               /\ CodeBlock.tag b = tag_name (el_tag e)
               /\ CodeBlock.content b = Text.strip (get_text (el_tag e)).
Proof.
  intros b.
  assert (H : b ∈ extract_code_blocks Examples.pre_python)
    by (apply list_elem_of_In; vm_compute; tauto).
  split; [exact H|].
  exact (code_block_content_trimmed Examples.pre_python b H).
Defined.

(** X9. An element with non-blank text one of whose classes contains
    [language-] or [highlight-] always gives a code block, whatever its
    name. *)
Theorem language_class_gives_block (soup : list node) (e : element)
    (cls : string) :
  e ∈ descendants soup ->
  cls ∈ get_class (el_tag e) ->
  Text.contains "language-" cls || Text.contains "highlight-" cls = true ->
  nonblank e = true ->
  entry_of e ∈ code_blocks_traced soup
  /\ code_block_of (el_tag e) ∈ extract_code_blocks soup.
Proof.
  intros He Hcls Hc Hn.
  assert (Hm : matches_any code_selectors e = true).
  { apply orb_true_iff in Hc as [Hc|Hc].
    - pose proof (contains_join _ _ _ Hcls Hc) as Hj.
      unfold matches_any, code_selectors. cbn [existsb selector_matches].
      rewrite Hj, !orb_true_r. reflexivity.
    - pose proof (contains_join _ _ _ Hcls Hc) as Hj.
      unfold matches_any, code_selectors. cbn [existsb selector_matches].
      rewrite Hj, !orb_true_r. reflexivity. }
  split.
  - apply code_blocks_traced_iff. exists e. auto.
  - apply code_blocks_iff. exists e. auto.
Qed.

Lemma language_class_gives_block_witness :
  let soup := [Tag "div" ["note"; "x-language-go"] ∅ [NavigableString " a "]] in
  let e := Element 0 [] (Tag "div" ["note"; "x-language-go"] ∅ [NavigableString " a "]) in
  (e ∈ descendants soup
   /\ "x-language-go" ∈ get_class (el_tag e)
   /\ Text.contains "language-" "x-language-go"
      || Text.contains "highlight-" "x-language-go" = true
   /\ nonblank e = true)
  /\ entry_of e ∈ code_blocks_traced soup
  /\ code_block_of (el_tag e) ∈ extract_code_blocks soup.
Proof.
  intros soup e.
  assert (H1 : e ∈ descendants soup) by (apply list_elem_of_In; vm_compute; tauto).
  assert (H2 : "x-language-go" ∈ get_class (el_tag e))
    by (apply list_elem_of_In; vm_compute; tauto).
  assert (H3 : Text.contains "language-" "x-language-go"
               || Text.contains "highlight-" "x-language-go" = true)
    by reflexivity.
  assert (H4 : nonblank e = true) by reflexivity.
  split; [tauto|].
  exact (language_class_gives_block soup e "x-language-go" H1 H2 H3 H4).
Defined.

(* ===================================================================== *)
(** ** The tree below an element *)
(* ===================================================================== *)

Section TreeFacts.













End TreeFacts.

Section PreCode.
Import Text.

Lemma append_assoc_s (a b c : string) : (a +:+ b) +:+ c = a +:+ (b +:+ c).
Proof.
  induction a as [|x a IH]; [reflexivity|].
  rewrite !append_cons, IH. reflexivity.
Qed.






End PreCode.



(* ===================================================================== *)
(** ** The content as a whole *)
(* ===================================================================== *)

Section ContentFacts.

Lemma clean_texts_normal es t :
  t ∈ clean_texts es -> normal_form t = true /\ t <> EmptyString.
Proof.
  intros H. split; [|apply (clean_texts_nonempty es t H)].
  unfold clean_texts in H.
  apply list_elem_of_fmap in H as (e & -> & _). apply clean_text_normal.
Qed.

Lemma headers_fold_values soup l d k v :
  (forall k v, d !! k = Some v -> exists es, v = clean_texts es) ->
  fold_left (headers_step soup) l d !! k = Some v ->
  exists es, v = clean_texts es.
Proof.
  revert d. induction l as [|i l IH]; intros d Hd; [apply Hd|].
  cbn [fold_left]. apply IH. intros k' v'.
  unfold headers_step. destruct (find_all soup (header_tag i)) as [|e es] eqn:E;
    [apply Hd|].
  destruct (decide (header_tag i = k')) as [<-|Hne].
  - rewrite lookup_insert_eq. intros [= <-]. eauto.
  - rewrite lookup_insert_ne by exact Hne. apply Hd.
Qed.

Lemma no_tags_no_descendants soup : Forall is_string soup -> descendants soup = [].
Proof.
  intros H. unfold descendants.
  assert (Hw : walk_all [] soup = []).
  { induction H as [|n l Hn _ IH]; [reflexivity|].
    destruct n; [|contradiction]. exact IH. }
  rewrite Hw. reflexivity.
Qed.

End ContentFacts.

(** X11. The title, every heading text and every paragraph of a content
    are in normal form: no white space at either end and single spaces
    only in between; heading texts and paragraphs are moreover not
    empty. *)
Theorem content_texts_normal (url : string) (response : Response.t) :
  let sc := extract url response in
  (forall t, ScrapedContent.title sc = Some t -> normal_form t = true)
  /\ (forall k v t, ScrapedContent.headers sc !! k = Some v -> t ∈ v ->
        normal_form t = true /\ t <> EmptyString)
  /\ (forall t, t ∈ ScrapedContent.paragraphs sc ->
        normal_form t = true /\ t <> EmptyString).
Proof.
  cbn [extract ScrapedContent.title ScrapedContent.headers
       ScrapedContent.paragraphs].
  split; [|split].
  - unfold extract_title. intros t.
    destruct (find (Response.soup response) "title"); [|discriminate].
    intros [= <-]. apply clean_text_normal.
  - intros k v t Hk Ht. unfold extract_headers in Hk.
    apply headers_fold_values in Hk as [es ->].
    + apply (clean_texts_normal es t Ht).
    + intros k' v' H. rewrite lookup_empty in H. discriminate.
  - intros t. apply clean_texts_normal.
Qed.

Lemma content_texts_normal_witness :
  let sc := extract "http://example.com/"
                    (Examples.response 200 Examples.page) in
  (ScrapedContent.title sc = Some "a b" /\ normal_form "a b" = true)
  /\ ("one two" ∈ ScrapedContent.paragraphs sc
      /\ normal_form "one two" = true /\ "one two" <> EmptyString).
Proof.
  intros sc.
  pose proof (content_texts_normal "http://example.com/"
                (Examples.response 200 Examples.page)) as (Ht & _ & Hp).
  assert (H1 : ScrapedContent.title sc = Some "a b") by (vm_compute; reflexivity).
  assert (H2 : "one two" ∈ ScrapedContent.paragraphs sc)
    by (apply list_elem_of_In; vm_compute; tauto).
  split.
  - split; [exact H1 | exact (Ht "a b" H1)].
  - split; [exact H2 | exact (Hp "one two" H2)].
Defined.

(** X12. A document without any tag, the empty document included, gives
    the empty content: no title, no meta description, no headers, no
    paragraphs and no code blocks. *)
Theorem no_tags_empty_content (url : string) (response : Response.t) :
  Forall is_string (Response.soup response) ->
  extract url response =
    ScrapedContent.mk url None ∅ [] [] None (Response.status_code response).
Proof.
  intros H. apply no_tags_no_descendants in H.
  unfold extract, extract_title, extract_meta_description, extract_headers,
    extract_paragraphs, extract_code_blocks, find, find_attr.
  unfold headers_step, process_selector, select, find_all.
  rewrite H. reflexivity.
Qed.

Lemma no_tags_empty_content_witness :
  let response :=
    Examples.response 200 [NavigableString "just "; NavigableString "text"] in
  Forall is_string (Response.soup response)
  /\ extract "http://example.com/" response =
       ScrapedContent.mk "http://example.com/" None ∅ [] [] None 200.
Proof.
  intros response.
  assert (H : Forall is_string (Response.soup response))
    by (repeat constructor).
  split; [exact H|].
  exact (no_tags_empty_content "http://example.com/" response H).
Defined.



(* ===================================================================== *)
(** ** The content of a code block *)
(* ===================================================================== *)

Section StripShape.
Import Text.

Lemma rstrip_decompose s :
  exists b, s = rstrip s +:+ b /\ all_space b = true.
Proof.
  induction s as [|c s (b & Hb & Hs)].
  - exists EmptyString. split; reflexivity.
  - rewrite rstrip_cons. destruct (truthy (rstrip s)) eqn:Et.
    + exists b. rewrite append_cons, <- Hb. auto.
    + apply truthy_false in Et. rewrite Et in Hb.
      change (EmptyString +:+ b) with b in Hb. subst b.
      destruct (isspace c) eqn:Ec.
      * exists (String c s). split; [reflexivity|]. simpl. rewrite Ec. exact Hs.
      * exists s. split; [reflexivity|exact Hs].
Qed.

Lemma lstrip_decompose s :
  exists a, s = a +:+ lstrip s /\ all_space a = true.
Proof.
  induction s as [|c s (a & Ha & Hs)].
  - exists EmptyString. split; reflexivity.
  - simpl lstrip. destruct (isspace c) eqn:Ec.
    + exists (String c a). rewrite append_cons, <- Ha. split; [reflexivity|].
      simpl. rewrite Ec. exact Hs.
    + exists EmptyString. split; reflexivity.
Qed.

Lemma strip_decompose s :
  exists a b, s = a +:+ (strip s +:+ b)
              /\ all_space a = true /\ all_space b = true.
Proof.
  destruct (rstrip_decompose s) as (b & Hb & Hsb).
  destruct (lstrip_decompose (rstrip s)) as (a & Ha & Hsa).
  exists a, b. split; [|auto]. unfold strip.
  rewrite <- append_assoc_s, <- Ha. exact Hb.
Qed.

End StripShape.

(** X15. The content of a code block is the text of its element as it
    stands, inner white space included, without the white space before
    its first and after its last other character. *)
Theorem code_block_content_verbatim (soup : list node) (b : CodeBlock.t) :
  b ∈ extract_code_blocks soup ->
  exists e before after,
    e ∈ descendants soup
    /\ b = code_block_of (el_tag e)
    /\ get_text (el_tag e) = before +:+ (CodeBlock.content b +:+ after)
    /\ Text.all_space before = true /\ Text.all_space after = true.
Proof.
  intros (e & He & -> & _ & _)%code_blocks_iff.
  destruct (strip_decompose (get_text (el_tag e))) as (a & c & Heq & Ha & Hc).
  exists e, a, c. cbn [code_block_of CodeBlock.content]. auto.
Qed.

Lemma code_block_content_verbatim_witness :
  let soup := [Tag "pre" [] ∅ [NavigableString "  a   b "]] in
  let b := CodeBlock.mk None "a   b" "pre" in
  b ∈ extract_code_blocks soup
  /\ exists e before after,
       e ∈ descendants soup
       /\ b = code_block_of (el_tag e)
       /\ get_text (el_tag e) = before +:+ (CodeBlock.content b +:+ after)
       /\ Text.all_space before = true /\ Text.all_space after = true.
Proof.
  intros soup b.
  assert (H : b ∈ extract_code_blocks soup)
    by (apply list_elem_of_In; vm_compute; tauto).
  split; [exact H|].
  exact (code_block_content_verbatim soup b H).
Defined.

(** The prefix [lang-] names a language but selects nothing: a [div] of
    class [lang-go] gives no block, inside a [pre] it names the language. *)
Example lang_prefix_selects_nothing :
  extract_code_blocks [Tag "div" ["lang-go"] ∅ [NavigableString "x"]] = []
  /\ extract_code_blocks [Tag "pre" ["lang-go"] ∅ [NavigableString "x"]] =
       [CodeBlock.mk (Some "go") "x" "pre"].
Proof. split; vm_compute; reflexivity. Qed.
